(** * phev2mqtt: session keys and framing of the PHEV wire protocol

    A shallow embedding of [protocol/raw.go] and the properties of its
    session-key state machine ([SecurityKey]) and of its framing helpers
    ([XorMessageWith], [Checksum], [ValidateChecksum],
    [ValidateAndDecodeMessage]).

    Conventions.
    - A Go [byte] is a [Z] in [0, 256); arithmetic that can leave that
      range is wrapped explicitly with [byte].  A Go [int] is a [Z] (the
      values met here stay far below 2^63).
    - A [[]byte] is a [list Z]; only its length and contents are observed,
      so a nil slice and an empty slice are both [[]].
    - An operation that can raise a run-time panic (index or slice bound
      out of range) lives in the [go] monad.  The calls to the logger have
      no effect on the values computed and are left out. *)

From Stdlib Require Import ZArith Lia.
From stdpp Require Import base tactics option list numbers gmap.

Local Open Scope Z_scope.

(** ** Outcomes of a Go computation *)

Inductive go (A : Type) : Type :=
  | Done (a : A)      (* normal return *)
  | Panic             (* run-time panic: index or slice bound out of range *)
  | Spin.             (* the iteration budget of an unbounded loop ran out *)
Arguments Done {A} a.
Arguments Panic {A}.
Arguments Spin {A}.

#[global] Instance go_ret : MRet go := fun A a => Done a.
#[global] Instance go_bind : MBind go := fun A B f m =>
  match m with
  | Done a => f a
  | Panic => Panic
  | Spin => Spin
  end.

(** [byte(x)]: conversion to [uint8], keeping the low eight bits. *)
Definition byte (z : Z) : Z := z mod 256.

(** [l[i]]: a read with Go's bounds check. *)
Definition index (l : list Z) (i : Z) : go Z :=
  if decide (0 <= i)
  then match l !! Z.to_nat i with
       | Some v => Done v
       | None => Panic
       end
  else Panic.

(** [l[i] = v]: a write with Go's bounds check. *)
Definition store (l : list Z) (i : Z) (v : Z) : go (list Z) :=
  if decide (0 <= i < Z.of_nat (length l))
  then Done (<[Z.to_nat i := v]> l)
  else Panic.

(** [l[:n]] for a slice whose capacity is its length. *)
Definition slice_to (l : list Z) (n : Z) : go (list Z) :=
  if decide (0 <= n <= Z.of_nat (length l))
  then Done (take (Z.to_nat n) l)
  else Panic.

(** [l[n:]]. *)
Definition slice_from (l : list Z) (n : Z) : go (list Z) :=
  if decide (0 <= n <= Z.of_nat (length l))
  then Done (drop (Z.to_nat n) l)
  else Panic.

(** [len(l)] as an [int]. *)
Definition len (l : list Z) : Z := Z.of_nat (length l).

(** A monadic left fold: the body of a counting [for] loop run over the
    values of its loop variable. *)
Fixpoint for_each {A B : Type} (body : A -> B -> go A) (acc : A) (l : list B) : go A :=
  match l with
  | [] => Done acc
  | i :: l' => acc' ← body acc i; for_each body acc' l'
  end.

(** Every element is a byte value. *)
Definition bytes (l : list Z) : Prop := Forall (fun b => 0 <= b < 256) l.

#[global] Instance bytes_dec l : Decision (bytes l).
Proof. unfold bytes. apply _. Defined.

(** ** The session key *)

Inductive SecurityState : Type :=
  | SecurityEmpty
  | SecurityKeyProposed
  | SecurityKeyAccepted.

Record SecurityKey : Type := mkSecurityKey {
  State : SecurityState;
  proposedKey : list Z;
  securityKey : Z;
  keyMap : list Z;
  sNum : Z;
  rNum : Z
}.

(** The zero value [SecurityKey{}]. *)
Definition zeroSecurityKey : SecurityKey :=
  mkSecurityKey SecurityEmpty [] 0 [] 0 0.

Definition set_State (v : SecurityState) (s : SecurityKey) : SecurityKey :=
  mkSecurityKey v (proposedKey s) (securityKey s) (keyMap s) (sNum s) (rNum s).
Definition set_proposedKey (v : list Z) (s : SecurityKey) : SecurityKey :=
  mkSecurityKey (State s) v (securityKey s) (keyMap s) (sNum s) (rNum s).
Definition set_securityKey (v : Z) (s : SecurityKey) : SecurityKey :=
  mkSecurityKey (State s) (proposedKey s) v (keyMap s) (sNum s) (rNum s).
Definition set_keyMap (v : list Z) (s : SecurityKey) : SecurityKey :=
  mkSecurityKey (State s) (proposedKey s) (securityKey s) v (sNum s) (rNum s).
Definition set_sNum (v : Z) (s : SecurityKey) : SecurityKey :=
  mkSecurityKey (State s) (proposedKey s) (securityKey s) (keyMap s) v (rNum s).
Definition set_rNum (v : Z) (s : SecurityKey) : SecurityKey :=
  mkSecurityKey (State s) (proposedKey s) (securityKey s) (keyMap s) (sNum s) v.

(** [GenerateProposal]: [rnd i] is the value the [i]-th call of
    [rand.Intn(256)] returns.  The proposal is returned with the state. *)
Definition GenerateProposal (rnd : nat -> Z) (s : SecurityKey)
  : go (list Z * SecurityKey) :=
  pk ← for_each (fun pk i => store pk (Z.of_nat i) (byte (rnd i)))
                (replicate 8 0) (seq 0 8);
  let s := set_proposedKey pk s in
  let s := set_State SecurityKeyProposed s in
  Done (proposedKey s, s).

(** The eight statements that assemble the security key from bit 3 of
    [packet[4]] .. [packet[11]]. *)
Definition derive_key (packet : list Z) : go Z :=
  p4 ← index packet 4;
  let result := Z.shiftr (Z.land p4 8) 3 in
  p5 ← index packet 5;
  let result := Z.lor result (Z.shiftr (Z.land p5 8) 2) in
  p6 ← index packet 6;
  let result := Z.lor result (Z.shiftr (Z.land p6 8) 1) in
  p7 ← index packet 7;
  let result := Z.lor result (Z.land p7 8) in
  p8 ← index packet 8;
  let result := Z.lor result (byte (Z.shiftl (Z.land p8 8) 1)) in
  p9 ← index packet 9;
  let result := Z.lor result (byte (Z.shiftl (Z.land p9 8) 2)) in
  p10 ← index packet 10;
  let result := Z.lor result (byte (Z.shiftl (Z.land p10 8) 3)) in
  p11 ← index packet 11;
  let result := Z.lor result (byte (Z.shiftl (Z.land p11 8) 4)) in
  Done (byte result).

(** One round of the second loop of [Update]: the state is the key map
    and the running [index]. *)
Definition shuffle_round (s_key : Z) (st : list Z * Z) (i : Z) : go (list Z * Z) :=
  let '(km, idx) := st in
  v ← index km i;
  let idx := idx + v in
  let idx := idx + s_key in
  let idx := Z.rem idx 256 in
  temp ← index km i;
  w ← index km idx;
  km ← store km i w;
  km ← store km idx temp;
  Done (km, idx).

(** The key map of [Update] for the security key [k]. *)
Definition build_keyMap (k : Z) : go (list Z) :=
  let s_key := k in
  let km0 := replicate 256 0 in
  km ← for_each (fun km i => store km i (byte i)) km0 (seqZ 0 (len km0));
  '(km, _) ← for_each (shuffle_round s_key) (km, 0) (seqZ 0 256);
  Done km.

Definition Update (packet : list Z) (s : SecurityKey) : go SecurityKey :=
  if decide (len packet < 12) then
    let s := set_keyMap [] s in
    let s := set_securityKey 0 s in
    let s := set_sNum 0 s in
    let s := set_rNum 0 s in
    Done s
  else
    result ← derive_key packet;
    let s := set_securityKey result s in
    km ← build_keyMap (securityKey s);
    let s := set_keyMap km s in
    let s := set_sNum 0 s in
    let s := set_rNum 0 s in
    Done s.

Definition AcceptProposal (s : SecurityKey) : go SecurityKey :=
  s ← Update ([0; 0; 0; 0] ++ proposedKey s) s;
  Done (set_State SecurityKeyAccepted s).

Definition RKey (increment : bool) (s : SecurityKey) : go (Z * SecurityKey) :=
  if decide (len (keyMap s) = 0) then Done (0, s)
  else
    let ret := rNum s in
    let s := if increment then set_rNum (byte (rNum s + 1)) s else s in
    v ← index (keyMap s) ret;
    Done (v, s).

Definition SKey (increment : bool) (s : SecurityKey) : go (Z * SecurityKey) :=
  if decide (len (keyMap s) = 0) then Done (0, s)
  else
    let ret := sNum s in
    let s := if increment then set_sNum (byte (sNum s + 1)) s else s in
    v ← index (keyMap s) ret;
    Done (v, s).

(** ** Framing *)

(** [XorMessageWith]: a fresh buffer of [len(message)] zero bytes, filled
    by the [range] loop.  The loop variable stays below [len(message)],
    the length of [msg], so every write is in range. *)
Definition XorMessageWith (message : list Z) (xor : Z) : list Z :=
  foldl (fun msg '(i, b) => <[i := Z.lxor b xor]> msg)
        (replicate (length message) 0)
        (imap (fun i b => (i, b)) message).

(** The loop of [Checksum]: [i] and [b] are bytes, [lim] is [length-1].
    The loop has no bound of its own, so it is run on a budget. *)
Fixpoint Checksum_loop (budget : nat) (message : list Z) (lim i b : Z) : go Z :=
  match budget with
  | O => Spin
  | S budget' =>
      if decide (i >= lim) then Done b
      else
        v ← index message i;
        Checksum_loop budget' message lim (byte (i + 1)) (byte (v + b))
  end.

(** [length] is a [byte] here: [message[1] + 2] wraps at 256, and so does
    [length - 1]. *)
Definition Checksum (message : list Z) : go Z :=
  m1 ← index message 1;
  let length := byte (m1 + 2) in
  Checksum_loop 257 message (byte (length - 1)) 0 0.

Definition ValidateChecksum (message : list Z) : go bool :=
  m1 ← index message 1;
  let length := m1 + 2 in
  if decide (len message < length) then Done false
  else
    wantSum ← index message (length - 1);
    sum ← Checksum message;
    Done (bool_decide (sum = wantSum)).

(** The decoded message and the trailing data are [None] for Go's [nil]. *)
Definition ValidateAndDecodeMessage (message : list Z)
  : go (option (list Z) * Z * option (list Z)) :=
  if decide (len message < 4) then Done (None, 0, None)
  else
    xor ← index message 2;
    let msg := XorMessageWith message xor in
    ok ← ValidateChecksum msg;
    r ← (if negb ok then
           let xor := Z.lxor xor 1 in
           let msg := XorMessageWith message xor in
           ok ← ValidateChecksum msg;
           Done (xor, msg, ok)
         else Done (xor, msg, true));
    let '(xor, msg, ok) := r in
    if negb ok then Done (None, 0, None)
    else
      m1 ← index msg 1;
      let length := byte (m1 + 2) in
      if decide (len message > length) then
        d ← slice_to msg length;
        t ← slice_from message length;
        Done (Some d, xor, Some t)
      else
        d ← slice_to msg length;
        Done (Some d, xor, None).

(** ** Sequences of calls on one session key *)

Inductive call : Type :=
  | CallGenerateProposal (rnd : nat -> Z)
  | CallAcceptProposal
  | CallUpdate (packet : list Z)
  | CallRKey (increment : bool)
  | CallSKey (increment : bool).

Inductive reply : Type :=
  | NoValue
  | ByteValue (b : Z)
  | BytesValue (l : list Z).

Definition perform (c : call) (s : SecurityKey) : go (reply * SecurityKey) :=
  match c with
  | CallGenerateProposal rnd =>
      '(p, s) ← GenerateProposal rnd s; Done (BytesValue p, s)
  | CallAcceptProposal => s ← AcceptProposal s; Done (NoValue, s)
  | CallUpdate packet => s ← Update packet s; Done (NoValue, s)
  | CallRKey increment => '(b, s) ← RKey increment s; Done (ByteValue b, s)
  | CallSKey increment => '(b, s) ← SKey increment s; Done (ByteValue b, s)
  end.

(** The calls of [cs] in order on the same [SecurityKey], with what each
    one returned. *)
Fixpoint run (cs : list call) (s : SecurityKey) : go (list reply * SecurityKey) :=
  match cs with
  | [] => Done ([], s)
  | c :: cs' =>
      '(r, s) ← perform c s;
      '(rs, s) ← run cs' s;
      Done (r :: rs, s)
  end.

Definition is_RKey (c : call) : bool :=
  match c with CallRKey _ => true | _ => false end.
Definition is_SKey (c : call) : bool :=
  match c with CallSKey _ => true | _ => false end.

(** ** [XorMessageWith] on a store of buffers

    A slice is the address of its backing array in a store, so that
    writing through one slice is seen through every alias of it. *)

Abbreviation heap := (gmap positive (list Z)).

(** [make([]byte, n)]: a fresh array of [n] zero bytes. *)
Definition make (n : nat) (h : heap) : positive * heap :=
  let p := fresh (dom h) in (p, <[p := replicate n 0]> h).

Definition heap_len (p : positive) (h : heap) : go nat :=
  match h !! p with
  | Some b => Done (length b)
  | None => Panic
  end.

Definition heap_index (p : positive) (i : nat) (h : heap) : go Z :=
  match h !! p with
  | Some b => index b (Z.of_nat i)
  | None => Panic
  end.

Definition heap_store (p : positive) (i : nat) (v : Z) (h : heap) : go heap :=
  match h !! p with
  | Some b => b' ← store b (Z.of_nat i) v; Done (<[p := b']> h)
  | None => Panic
  end.

Definition heap_XorMessageWith (message : positive) (xor : Z) (h : heap)
  : go (positive * heap) :=
  n ← heap_len message h;
  let '(msg, h) := make n h in
  h ← for_each (fun h i => b ← heap_index message i h;
                           heap_store msg i (Z.lxor b xor) h)
               h (seq 0 n);
  Done (msg, h).

(** ** Reference definitions

    What the code is compared with: the byte sum of a checksum, the
    key-scheduling shuffle, and what a well-formed frame is. *)

(** The sum of the bytes of [l], each addition modulo 256. *)
Definition sum_mod256 (l : list Z) : Z :=
  foldl (fun acc v => (acc + v) mod 256) 0 l.

(** Exchange of the entries at [i] and [j]. *)
Definition swap (l : list Z) (i j : nat) : list Z :=
  <[j := l !!! i]> (<[i := l !!! j]> l).

(** One round of the RC4 key schedule with the key [key]. *)
Definition ksa_round (key : list Z) (st : list Z * Z) (i : nat) : list Z * Z :=
  let '(perm, j) := st in
  let j' := (j + perm !!! i + key !!! (i mod length key)%nat) mod 256 in
  (swap perm i (Z.to_nat j'), j').

(** The RC4 key schedule: 256 rounds from the identity. *)
Definition rc4_ksa (key : list Z) : list Z :=
  (foldl (ksa_round key) (seqZ 0 256, 0) (seq 0 256)).1.

(** The shuffle for a one-byte key [k]: from the identity [0..255], round
    [i] sets [index = (index + permutation[i] + k) mod 256] and exchanges
    [permutation[i]] and [permutation[index]]. *)
Definition shuffle_step (k : Z) (st : list Z * Z) (i : nat) : list Z * Z :=
  let idx := (st.2 + st.1 !!! i + k) mod 256 in
  (swap st.1 i (Z.to_nat idx), idx).

Definition shuffle (k : Z) : list Z :=
  (foldl (shuffle_step k) (seqZ 0 256, 0) (seq 0 256)).1.

(** [l] holds each of the values 0..255 exactly once. *)
Definition bijection256 (l : list Z) : Prop := l ≡ₚ seqZ 0 256.

(** Each of the values 0..255 sits at exactly one position of [l]. *)
Definition each_once (l : list Z) : Prop :=
  forall v, 0 <= v < 256 ->
    exists i : nat, l !! i = Some v /\ forall j : nat, l !! j = Some v -> j = i.

(** Only keystream calls. *)
Definition key_calls (cs : list call) : Prop :=
  Forall (fun c => is_RKey c || is_SKey c) cs.

(** The handshake packet of the key-derivation scenario. *)
Definition scenario_packet : list Z :=
  [0; 0; 0; 0; 0x08; 0x00; 0x08; 0x08; 0x00; 0x08; 0x00; 0x08].

(** The invariant of a session key: the key map is empty or a bijection
    of 0..255, and both counters are bytes. *)
Definition key_ok (s : SecurityKey) : Prop :=
  (keyMap s = [] \/ bijection256 (keyMap s)) /\
  0 <= sNum s < 256 /\ 0 <= rNum s < 256.

(** [f] is one whole frame obfuscated with the key [x]: its third byte
    is [x] or the low-bit complement of [x], and de-obfuscated with [x]
    it declares its own length and carries its checksum. *)
Definition frame (f : list Z) (x : Z) : Prop :=
  bytes f /\ 4 <= len f /\ 0 <= x < 256 /\
  (f !! 2%nat = Some x \/ f !! 2%nat = Some (Z.lxor x 1)) /\
  XorMessageWith f x !! 1%nat = Some (len f - 2) /\
  ValidateChecksum (XorMessageWith f x) = Done true.

(** What [ValidateAndDecodeMessage] returns once the key [xor] has passed
    validation. *)
Definition decoded (message : list Z) (xor : Z)
  : option (list Z) * Z * option (list Z) :=
  let msg := XorMessageWith message xor in
  let length := byte (msg !!! 1%nat + 2) in
  (Some (take (Z.to_nat length) msg), xor,
   if decide (len message > length)
   then Some (drop (Z.to_nat length) message) else None).

(** The plain integer sum of [l]. *)
Definition total (l : list Z) : Z := foldr Z.add 0 l.

(** The calls that assign [State]. *)
Definition assigns_State (c : call) : bool :=
  match c with
  | CallGenerateProposal _ | CallAcceptProposal => true
  | _ => false
  end.

#[global] Instance go_eq_dec {A} `{EqDecision A} : EqDecision (go A).
Proof. solve_decision. Defined.

#[global] Instance frame_dec f x : Decision (frame f x).
Proof. unfold frame. apply _. Defined.

(** * Properties *)

(** ** Bytes *)

Lemma byte_range z : 0 <= byte z < 256.
Proof. unfold byte. apply Z.mod_pos_bound. lia. Qed.

Lemma byte_small z : 0 <= z < 256 -> byte z = z.
Proof. intros. unfold byte. apply Z.mod_small. lia. Qed.

Lemma byte_land z : byte z = Z.land z 255.
Proof. unfold byte. change 255 with (Z.ones 8). now rewrite Z.land_ones by lia. Qed.

Lemma lxor_byte a b : 0 <= a < 256 -> 0 <= b < 256 -> 0 <= Z.lxor a b < 256.
Proof.
  intros Ha Hb.
  rewrite <- (byte_small a), <- (byte_small b) by lia.
  assert (Z.lxor (byte a) (byte b) = byte (Z.lxor a b)) as ->; [|apply byte_range].
  rewrite !byte_land. apply Z.bits_inj'. intros n _.
  rewrite Z.lxor_spec, !Z.land_spec, Z.lxor_spec.
  destruct (Z.testbit a n), (Z.testbit b n), (Z.testbit 255 n); reflexivity.
Qed.

Lemma lxor_twice b x : Z.lxor (Z.lxor b x) x = b.
Proof. now rewrite Z.lxor_assoc, Z.lxor_nilpotent, Z.lxor_0_r. Qed.

Lemma bytes_lookup l i v : bytes l -> l !! i = Some v -> 0 <= v < 256.
Proof. intros Hl Hi. exact (proj1 (Forall_lookup _ l) Hl i v Hi). Qed.

Lemma bytes_app l1 l2 : bytes (l1 ++ l2) <-> bytes l1 /\ bytes l2.
Proof. apply Forall_app. Qed.

(** ** Reads and writes *)

Lemma Done_inj {A : Type} (a b : A) : Done a = Done b -> a = b.
Proof. now intros [= ->]. Qed.

Lemma bind_Done {A B : Type} (a : A) (f : A -> go B) : (Done a ≫= f) = f a.
Proof. reflexivity. Qed.

Lemma index_Done l i v :
  index l i = Done v <-> 0 <= i /\ l !! Z.to_nat i = Some v.
Proof.
  unfold index. destruct (decide (0 <= i)); [|split; [discriminate | tauto]].
  destruct (l !! Z.to_nat i) eqn:E; split; intros H; try discriminate.
  - injection H as ->. auto.
  - destruct H as [_ H]. now injection H as ->.
  - now destruct H.
Qed.

Lemma index_lookup l i v : 0 <= i -> l !! Z.to_nat i = Some v -> index l i = Done v.
Proof. intros. now apply index_Done. Qed.

Lemma index_nat l (i : nat) v : l !! i = Some v -> index l (Z.of_nat i) = Done v.
Proof. intros H. apply index_Done. rewrite Nat2Z.id. split; [lia | done]. Qed.

Lemma store_nat l (i : nat) v :
  (i < length l)%nat -> store l (Z.of_nat i) v = Done (<[i := v]> l).
Proof.
  intros H. unfold store. rewrite decide_True by lia. now rewrite Nat2Z.id.
Qed.

(** ** [XorMessageWith] *)

Lemma XorMessageWith_fill (x : Z) (l : list Z) : forall (n : nat) (acc : list Z),
  length acc = (n + length l)%nat ->
  foldl (fun msg '(i, b) => <[i := Z.lxor b x]> msg) acc
        (imap (fun i b => ((n + i)%nat, b)) l)
  = take n acc ++ map (fun b => Z.lxor b x) l.
Proof.
  induction l as [|b l IH]; intros n acc Hlen; simpl in *.
  - rewrite app_nil_r. apply symmetry, take_ge. lia.
  - rewrite (imap_ext _ (fun i b => ((S n + i)%nat, b)))
      by (intros; simpl; f_equal; lia).
    rewrite IH by (rewrite length_insert; lia).
    rewrite Nat.add_0_r.
    rewrite (take_S_r _ _ (Z.lxor b x))
      by (apply list_lookup_insert_eq; lia).
    rewrite take_insert_ge by lia. now rewrite <- app_assoc.
Qed.

Lemma XorMessageWith_map message x :
  XorMessageWith message x = map (fun b => Z.lxor b x) message.
Proof.
  unfold XorMessageWith.
  now rewrite (XorMessageWith_fill x message 0) by (now rewrite length_replicate).
Qed.

Lemma XorMessageWith_length message x :
  length (XorMessageWith message x) = length message.
Proof. rewrite XorMessageWith_map. apply length_map. Qed.

Lemma XorMessageWith_twice message x :
  XorMessageWith (XorMessageWith message x) x = message.
Proof.
  rewrite !XorMessageWith_map, map_map. rewrite <- (map_id message) at 2.
  apply map_ext. intros. apply lxor_twice.
Qed.

Lemma XorMessageWith_app m1 m2 x :
  XorMessageWith (m1 ++ m2) x = XorMessageWith m1 x ++ XorMessageWith m2 x.
Proof. rewrite !XorMessageWith_map. apply map_app. Qed.

Lemma XorMessageWith_bytes message x :
  bytes message -> 0 <= x < 256 -> bytes (XorMessageWith message x).
Proof.
  intros Hm Hx. rewrite XorMessageWith_map. unfold bytes in *.
  rewrite Forall_map. eapply Forall_impl; [exact Hm|].
  intros b Hb. simpl. now apply lxor_byte.
Qed.

(** On the store, the loop of [XorMessageWith] writes only to the buffer
    it made: after [k] more rounds from round [n] the new buffer holds
    the XORed bytes and every other buffer is as before. *)
Lemma heap_XorMessageWith_loop (message msg : positive) (x : Z) (b : list Z) :
  msg <> message ->
  forall (k n : nat) (h : heap) (acc : list Z),
    h !! message = Some b -> h !! msg = Some acc ->
    length acc = length b -> (n + k)%nat = length b ->
    for_each (fun h i => v ← heap_index message i h;
                         heap_store msg i (Z.lxor v x) h) h (seq n k)
    = Done (<[msg := take n acc ++ map (fun v => Z.lxor v x) (drop n b)]> h).
Proof.
  intros Hne. induction k as [|k IH]; intros n h acc Hb Hacc Hlen Hn;
    cbn [for_each seq].
  - rewrite drop_ge, app_nil_r, take_ge by lia.
    f_equal. symmetry. now apply insert_id.
  - destruct (lookup_lt_is_Some_2 b n) as [v Hv]; [lia|].
    assert (heap_index message n h = Done v) as ->
      by (unfold heap_index; rewrite Hb; now apply index_nat).
    rewrite bind_Done.
    assert (heap_store msg n (Z.lxor v x) h
            = Done (<[msg := <[n := Z.lxor v x]> acc]> h)) as ->
      by (unfold heap_store; rewrite Hacc, store_nat by lia; reflexivity).
    rewrite bind_Done.
    rewrite (IH (S n) _ (<[n := Z.lxor v x]> acc)).
    + f_equal. etrans; [apply insert_insert_eq|]. f_equal.
      rewrite (take_S_r _ _ (Z.lxor v x)) by (apply list_lookup_insert_eq; lia).
      rewrite take_insert_ge by lia. rewrite (drop_S _ _ _ Hv).
      now rewrite <- app_assoc.
    + now rewrite lookup_insert_ne.
    + apply lookup_insert_eq.
    + now rewrite length_insert.
    + lia.
Qed.

Lemma heap_XorMessageWith_spec (h : heap) (message : positive) (b : list Z) (x : Z) :
  h !! message = Some b ->
  let msg := fresh (dom h) in
  heap_XorMessageWith message x h = Done (msg, <[msg := XorMessageWith b x]> h)
  /\ h !! msg = None.
Proof.
  intros Hb msg.
  assert (h !! msg = None) as Hfresh.
  { apply not_elem_of_dom. apply is_fresh. }
  split; [|exact Hfresh].
  unfold heap_XorMessageWith, heap_len. rewrite Hb. simpl.
  fold msg.
  rewrite (heap_XorMessageWith_loop message msg x b) with (acc := replicate (length b) 0).
  - simpl. do 2 f_equal. etrans; [apply insert_insert_eq|].
    now rewrite XorMessageWith_map.
  - intros ->. congruence.
  - rewrite lookup_insert_ne; [done | intros ->; congruence].
  - apply lookup_insert_eq.
  - apply length_replicate.
  - reflexivity.
Qed.

(** ** [Checksum] and [ValidateChecksum] *)

Lemma Checksum_loop_sum (message : list Z) (lim : Z) :
  lim <= 255 -> lim <= len message ->
  forall (budget : nat) (i b : Z),
    0 <= i <= lim -> (Z.to_nat (lim - i) < budget)%nat ->
    Checksum_loop budget message lim i b
    = Done (foldl (fun acc v => (acc + v) mod 256) b
                  (drop (Z.to_nat i) (take (Z.to_nat lim) message))).
Proof.
  intros Hlim Hlen. unfold len in Hlen.
  induction budget as [|budget IH]; intros i b Hi Hbud; [lia|]. simpl.
  destruct (decide (i >= lim)) as [Hge|Hlt].
  - rewrite drop_ge; [done|]. rewrite length_take. lia.
  - destruct (lookup_lt_is_Some_2 message (Z.to_nat i)) as [v Hv]; [lia|].
    assert (index message i = Done v) as -> by (apply index_Done; split; [lia | done]).
    simpl. rewrite byte_small by lia. rewrite IH by lia.
    rewrite (drop_S _ v (Z.to_nat i)) by (rewrite lookup_take_lt by lia; done).
    simpl. unfold byte. rewrite (Z.add_comm v b).
    do 3 f_equal. lia.
Qed.

(** Below a declared length byte of 255 the checksum is the byte sum of
    [message[0 .. length-2]], where [length = message[1] + 2]. *)
Lemma Checksum_sum (message : list Z) (m1 : Z) :
  message !! 1%nat = Some m1 -> 0 <= m1 <= 254 -> m1 + 1 <= len message ->
  Checksum message = Done (sum_mod256 (take (Z.to_nat (m1 + 2 - 1)) message)).
Proof.
  intros H1 Hm1 Hlen. unfold Checksum.
  rewrite (index_lookup _ 1 _ ltac:(lia) H1), bind_Done. cbv zeta.
  assert (byte (byte (m1 + 2) - 1) = m1 + 2 - 1) as ->.
  { destruct (decide (m1 = 254)) as [->|]; [reflexivity|].
    rewrite (byte_small (m1 + 2)) by lia. apply byte_small. lia. }
  rewrite Checksum_loop_sum by lia. reflexivity.
Qed.

(** With a declared length byte of 255 the byte-wide [length] is 1 and
    the loop ends before its first round. *)
Lemma Checksum_255 (message : list Z) :
  message !! 1%nat = Some 255 -> Checksum message = Done 0.
Proof. intros H1. unfold Checksum. now rewrite (index_lookup _ 1 _ ltac:(lia) H1). Qed.

Lemma Checksum_Done (message : list Z) (m1 : Z) :
  message !! 1%nat = Some m1 -> 0 <= m1 < 256 -> m1 + 1 <= len message ->
  exists c, Checksum message = Done c /\ 0 <= c < 256.
Proof.
  intros H1 Hm1 Hlen. destruct (decide (m1 = 255)) as [->|].
  - exists 0. split; [now apply Checksum_255 | lia].
  - eexists. split; [apply (Checksum_sum _ m1); [done | lia | lia]|].
    unfold sum_mod256. generalize (take (Z.to_nat (m1 + 2 - 1)) message).
    intros l. induction l as [|v l IH] using rev_ind; simpl; [lia|].
    rewrite foldl_snoc. apply Z.mod_pos_bound. lia.
Qed.

Lemma ValidateChecksum_cases (message : list Z) (m1 : Z) :
  message !! 1%nat = Some m1 -> 0 <= m1 < 256 ->
  (len message < m1 + 2 -> ValidateChecksum message = Done false) /\
  (m1 + 2 <= len message ->
   exists c w, Checksum message = Done c /\
               index message (m1 + 2 - 1) = Done w /\
               ValidateChecksum message = Done (bool_decide (c = w))).
Proof.
  intros H1 Hm1. unfold ValidateChecksum. rewrite (index_lookup _ 1 _ ltac:(lia) H1). simpl.
  split; intros Hlen.
  - now rewrite decide_True.
  - rewrite decide_False by lia.
    destruct (Checksum_Done message m1) as (c & Hc & _); [done | lia | lia |].
    destruct (lookup_lt_is_Some_2 message (Z.to_nat (m1 + 2 - 1))) as [w Hw];
      [unfold len in Hlen; lia|].
    assert (index message (m1 + 2 - 1) = Done w) as Hi
      by (apply index_Done; split; [lia | done]).
    exists c, w. rewrite Hi, Hc. auto.
Qed.

Lemma ValidateChecksum_Done (message : list Z) :
  bytes message -> 2 <= len message -> exists ok, ValidateChecksum message = Done ok.
Proof.
  intros Hb Hlen. unfold len in Hlen.
  destruct (lookup_lt_is_Some_2 message 1) as [m1 H1]; [lia|].
  pose proof (bytes_lookup _ _ _ Hb H1) as Hm1.
  destruct (ValidateChecksum_cases message m1 H1 Hm1) as [Hshort Hlong].
  destruct (decide (len message < m1 + 2)).
  - eauto.
  - destruct Hlong as (c & w & _ & _ & ->); [lia | eauto].
Qed.

(** A buffer that passes validation is at least as long as the length it
    declares. *)
Lemma ValidateChecksum_true_len (message : list Z) (m1 : Z) :
  message !! 1%nat = Some m1 -> ValidateChecksum message = Done true ->
  m1 + 2 <= len message.
Proof.
  intros H1. unfold ValidateChecksum.
  rewrite (index_lookup _ 1 _ ltac:(lia) H1), bind_Done. cbv zeta.
  destruct (decide (len message < m1 + 2)); [discriminate | lia].
Qed.

(** Validation looks at the declared frame only: data after it does not
    change the verdict. *)
Lemma ValidateChecksum_app (d1 d2 : list Z) (m1 : Z) :
  d1 !! 1%nat = Some m1 -> 0 <= m1 <= 254 -> m1 + 2 <= len d1 ->
  ValidateChecksum (d1 ++ d2) = ValidateChecksum d1.
Proof.
  intros H1 Hm1 Hlen. unfold len in Hlen.
  assert ((d1 ++ d2) !! 1%nat = Some m1) as H1' by (now apply lookup_app_l_Some).
  unfold ValidateChecksum.
  rewrite (index_lookup _ 1 _ ltac:(lia) H1), (index_lookup _ 1 _ ltac:(lia) H1').
  rewrite !bind_Done. cbv zeta.
  assert (len (d1 ++ d2) = len d1 + len d2) as Happ
    by (unfold len; rewrite length_app; lia).
  rewrite !decide_False by (unfold len in *; lia).
  destruct (lookup_lt_is_Some_2 d1 (Z.to_nat (m1 + 2 - 1))) as [w Hw]; [lia|].
  rewrite (index_lookup d1 _ w), (index_lookup (d1 ++ d2) _ w);
    [| lia | now apply lookup_app_l_Some | lia | done].
  rewrite (Checksum_sum _ m1 H1), (Checksum_sum _ m1 H1')
    by (unfold len in *; lia).
  rewrite take_app_le by lia. reflexivity.
Qed.

Lemma decode_tail (message : list Z) (xor : Z) :
  2 <= len message -> bytes message -> 0 <= xor < 256 ->
  ValidateChecksum (XorMessageWith message xor) = Done true ->
  (m1 ← index (XorMessageWith message xor) 1;
   let length := byte (m1 + 2) in
   if decide (len message > length) then
     d ← slice_to (XorMessageWith message xor) length;
     t ← slice_from message length;
     Done (Some d, xor, Some t)
   else
     d ← slice_to (XorMessageWith message xor) length;
     Done (Some d, xor, None))
  = Done (decoded message xor).
Proof.
  intros Hlen Hb Hx Hok. unfold decoded.
  set (msg := XorMessageWith message xor) in *.
  assert (length msg = length message) as Hl by apply XorMessageWith_length.
  destruct (lookup_lt_is_Some_2 msg 1) as [m1 H1]; [unfold len in *; lia|].
  assert (0 <= m1 < 256) as Hm1
    by (eapply bytes_lookup; [apply XorMessageWith_bytes|]; eauto).
  pose proof (ValidateChecksum_true_len _ _ H1 Hok) as Hdecl.
  rewrite (index_lookup _ 1 _ ltac:(lia) H1), bind_Done.
  rewrite (list_lookup_total_correct _ _ _ H1). cbv zeta.
  pose proof (byte_range (m1 + 2)) as Hr.
  assert (byte (m1 + 2) <= m1 + 2) as Hle
    by (unfold byte; apply Z.mod_le; lia).
  assert (slice_to msg (byte (m1 + 2)) = Done (take (Z.to_nat (byte (m1 + 2))) msg)) as ->
    by (unfold slice_to; rewrite decide_True; [done | unfold len in *; lia]).
  assert (slice_from message (byte (m1 + 2))
          = Done (drop (Z.to_nat (byte (m1 + 2))) message)) as ->
    by (unfold slice_from; rewrite decide_True; [done | unfold len in *; lia]).
  destruct (decide (len message > byte (m1 + 2))); reflexivity.
Qed.

Lemma ValidateAndDecodeMessage_cases (message : list Z) :
  bytes message -> 4 <= len message ->
  exists x ok1 ok2,
    message !! 2%nat = Some x /\ 0 <= x < 256 /\
    ValidateChecksum (XorMessageWith message x) = Done ok1 /\
    ValidateChecksum (XorMessageWith message (Z.lxor x 1)) = Done ok2 /\
    ValidateAndDecodeMessage message
    = Done (if ok1 then decoded message x
            else if ok2 then decoded message (Z.lxor x 1)
            else (None, 0, None)).
Proof.
  intros Hb Hlen.
  destruct (lookup_lt_is_Some_2 message 2) as [x H2]; [unfold len in *; lia|].
  pose proof (bytes_lookup _ _ _ Hb H2) as Hx.
  assert (0 <= Z.lxor x 1 < 256) as Hx' by (apply lxor_byte; lia).
  destruct (ValidateChecksum_Done (XorMessageWith message x)) as [ok1 Hok1];
    [now apply XorMessageWith_bytes | unfold len; rewrite XorMessageWith_length; unfold len in *; lia |].
  destruct (ValidateChecksum_Done (XorMessageWith message (Z.lxor x 1))) as [ok2 Hok2];
    [now apply XorMessageWith_bytes | unfold len; rewrite XorMessageWith_length; unfold len in *; lia |].
  exists x, ok1, ok2. repeat split; try done; try lia.
  unfold ValidateAndDecodeMessage. rewrite decide_False by lia.
  rewrite (index_lookup _ 2 _ ltac:(lia) H2), bind_Done. cbv zeta.
  rewrite Hok1, bind_Done.
  destruct ok1; cbn [negb].
  - rewrite bind_Done. cbn [negb]. apply decode_tail; [lia | done | done | done].
  - rewrite Hok2, !bind_Done.
    destruct ok2; cbn [negb]; [|reflexivity].
    apply decode_tail; [lia | done | done | done].
Qed.

(** ** Theorems on framing *)

(** C9. For every buffer [b] and every byte [x], XORing twice with [x]
    gives [b] back; [XorMessageWith] returns a buffer of the length of its
    input; and on a store of buffers it returns a buffer that was not
    allocated before, holding the XORed bytes, while every buffer that
    existed, the input among them, keeps its contents. *)
Theorem XorMessageWith_involutive_fresh
    (h : heap) (message : positive) (b : list Z) (x : Z) :
  h !! message = Some b ->
  XorMessageWith (XorMessageWith b x) x = b /\
  length (XorMessageWith b x) = length b /\
  exists (msg : positive) (h' : heap),
    heap_XorMessageWith message x h = Done (msg, h') /\
    h !! msg = None /\
    h' !! msg = Some (XorMessageWith b x) /\
    h' !! message = Some b /\
    forall p, p <> msg -> h' !! p = h !! p.
Proof.
  intros Hb. split; [apply XorMessageWith_twice|].
  split; [apply XorMessageWith_length|].
  destruct (heap_XorMessageWith_spec h message b x Hb) as [Hrun Hfresh].
  eexists _, _. split; [exact Hrun|]. split; [exact Hfresh|].
  split; [apply lookup_insert_eq|].
  split.
  - rewrite lookup_insert_ne; [done | intros E; rewrite E in Hfresh; congruence].
  - intros p Hp. now rewrite lookup_insert_ne.
Qed.

Lemma XorMessageWith_involutive_fresh_witness :
  ({[ 1%positive := [1; 2; 3] ]} : heap) !! 1%positive = Some [1; 2; 3] /\
  XorMessageWith (XorMessageWith [1; 2; 3] 5) 5 = [1; 2; 3] /\
  length (XorMessageWith [1; 2; 3] 5) = length [1; 2; 3] /\
  exists (msg : positive) (h' : heap),
    heap_XorMessageWith 1%positive 5 {[ 1%positive := [1; 2; 3] ]} = Done (msg, h') /\
    ({[ 1%positive := [1; 2; 3] ]} : heap) !! msg = None /\
    h' !! msg = Some (XorMessageWith [1; 2; 3] 5) /\
    h' !! 1%positive = Some [1; 2; 3] /\
    forall p, p <> msg -> h' !! p = ({[ 1%positive := [1; 2; 3] ]} : heap) !! p.
Proof.
  split; [reflexivity|].
  apply (XorMessageWith_involutive_fresh {[ 1%positive := [1; 2; 3] ]} 1%positive).
  reflexivity.
Defined.

(** C5. On the 257-byte message [0x10, 0xFF, 0, ..., 0] the declared
    length byte is 255: the byte sum of [message[0 .. 255]] is 0x0F, and
    [Checksum] returns 0, because its byte-wide [length] wrapped to 1.
    [ValidateChecksum], which computes the length 257 as an [int], then
    accepts the message on its last byte 0. *)
Theorem Checksum_length_wraps :
  let m := 16 :: 255 :: replicate 255 0 in
  bytes m /\ len m = 257 /\ m !! 1%nat = Some 255 /\
  sum_mod256 (take (Z.to_nat (255 + 2 - 1)) m) = 15 /\
  Checksum m = Done 0 /\
  ValidateChecksum m = Done true.
Proof.
  cbv zeta. split; [|split; [|split; [|split; [|split]]]].
  - unfold bytes. do 2 (constructor; [lia|]). apply Forall_replicate. lia.
  - reflexivity.
  - reflexivity.
  - vm_compute. reflexivity.
  - now apply Checksum_255.
  - vm_compute. reflexivity.
Qed.

(** C6 fails as stated: on the empty message, and on any message of one
    byte, [ValidateChecksum] reads [message[1]] and panics. *)
Lemma ValidateChecksum_short_panics :
  ~ (forall m : list Z, bytes m -> exists ok : bool, ValidateChecksum m = Done ok).
Proof.
  intros H. destruct (H [] ltac:(constructor)) as [ok Hok]. discriminate Hok.
Qed.

(** C6, amended. For every message [m] of at least two bytes,
    [ValidateChecksum m] returns false when [len m < m[1] + 2], and
    otherwise returns whether [Checksum m] equals [m[length-1]], where
    [length = m[1] + 2]; in both cases it returns and does not panic. *)
Theorem ValidateChecksum_total (m : list Z) :
  bytes m -> 2 <= len m ->
  exists m1 : Z,
    m !! 1%nat = Some m1 /\
    (len m < m1 + 2 -> ValidateChecksum m = Done false) /\
    (m1 + 2 <= len m ->
     exists c w : Z,
       Checksum m = Done c /\
       index m (m1 + 2 - 1) = Done w /\
       ValidateChecksum m = Done (bool_decide (c = w))).
Proof.
  intros Hb Hlen.
  destruct (lookup_lt_is_Some_2 m 1) as [m1 H1]; [unfold len in Hlen; lia|].
  exists m1. split; [done|].
  apply ValidateChecksum_cases; [done|]. eapply bytes_lookup; eauto.
Qed.

Lemma ValidateChecksum_total_witness :
  bytes [16; 3; 170; 187] /\ 2 <= len [16; 3; 170; 187] /\
  exists m1 : Z,
    [16; 3; 170; 187] !! 1%nat = Some m1 /\
    (len [16; 3; 170; 187] < m1 + 2 -> ValidateChecksum [16; 3; 170; 187] = Done false) /\
    (m1 + 2 <= len [16; 3; 170; 187] ->
     exists c w : Z,
       Checksum [16; 3; 170; 187] = Done c /\
       index [16; 3; 170; 187] (m1 + 2 - 1) = Done w /\
       ValidateChecksum [16; 3; 170; 187] = Done (bool_decide (c = w))).
Proof.
  assert (bytes [16; 3; 170; 187]) as Hb by (repeat constructor; lia).
  assert (2 <= len [16; 3; 170; 187]) as Hl by (unfold len; simpl; lia).
  split; [exact Hb|]. split; [exact Hl|].
  exact (ValidateChecksum_total [16; 3; 170; 187] Hb Hl).
Defined.

Lemma lxor_1_neq (x : Z) : Z.lxor x 1 <> x.
Proof.
  intros E. apply (f_equal (Z.lxor x)) in E.
  rewrite <- Z.lxor_assoc, Z.lxor_nilpotent in E. discriminate E.
Qed.

(** A frame of at most 255 bytes, once its key has passed validation, is
    decoded whole. *)
Lemma decoded_frame (f : list Z) (x : Z) :
  frame f x -> len f <= 255 ->
  decoded f x = (Some (XorMessageWith f x), x, None).
Proof.
  intros (Hb & Hlen & Hx & Hkey & Hdecl & Hok) Hshort. unfold decoded.
  rewrite (list_lookup_total_correct _ _ _ Hdecl).
  replace (len f - 2 + 2) with (len f) by lia. rewrite byte_small by lia.
  rewrite decide_False by lia.
  rewrite take_ge by (rewrite XorMessageWith_length; unfold len; lia).
  reflexivity.
Qed.

(** C4 fails as stated: [0x00, 0x04, 0x00, 0x00, 0x00, 0x04, 0x0F] is a
    frame under the key 1 and its third byte is 0, the low-bit complement
    of that key; yet it also validates under the key 0 that the decoder
    reads first, with a declared length of six, so the retry is not taken
    and the key returned is 0. *)
Lemma bit_flip_frame_not_retried :
  ~ (forall (message : list Z) (x : Z),
       frame message x -> message !! 2%nat = Some (Z.lxor x 1) ->
       exists d t, ValidateAndDecodeMessage message = Done (Some d, x, t)).
Proof.
  intros H.
  assert (frame [0; 4; 0; 0; 0; 4; 15] 1) as F
    by (apply (bool_decide_unpack _); vm_compute; exact I).
  destruct (H [0; 4; 0; 0; 0; 4; 15] 1 F eq_refl) as (d & t & E).
  vm_compute in E. discriminate E.
Qed.

(** C4, amended. For every input buffer, [ValidateAndDecodeMessage]
    returns, and what it returns is the absent result [(nil, 0, nil)]
    exactly when the buffer has fewer than four bytes or neither
    [xor = message[2]] nor [xor ^ 1] gives a buffer that passes
    [ValidateChecksum].  In particular a frame of at most 255 bytes
    obfuscated with the low-bit complement of its third byte is never
    answered with the absent result, and it is decoded through the retry,
    to the frame de-obfuscated, its key and no remainder, exactly when
    the key read first from [message[2]] does not pass
    [ValidateChecksum]. *)
Theorem ValidateAndDecodeMessage_absent_iff (message : list Z) :
  bytes message ->
  (exists r, ValidateAndDecodeMessage message = Done r) /\
  (ValidateAndDecodeMessage message = Done (None, 0, None) <->
   len message < 4 \/
   exists x, message !! 2%nat = Some x /\
     ValidateChecksum (XorMessageWith message x) = Done false /\
     ValidateChecksum (XorMessageWith message (Z.lxor x 1)) = Done false) /\
  (forall x, frame message x -> len message <= 255 ->
     message !! 2%nat = Some (Z.lxor x 1) ->
     (exists d key t, ValidateAndDecodeMessage message = Done (Some d, key, t)) /\
     (ValidateAndDecodeMessage message
      = Done (Some (XorMessageWith message x), x, None) <->
      ValidateChecksum (XorMessageWith message (Z.lxor x 1)) = Done false)).
Proof.
  intros Hb. destruct (decide (len message < 4)) as [Hshort|Hlong].
  - assert (ValidateAndDecodeMessage message = Done (None, 0, None)) as Hr
      by (unfold ValidateAndDecodeMessage; now rewrite decide_True).
    split; [eauto|]. split; [tauto|].
    intros x (_ & Hlen & _) _ _. lia.
  - destruct (ValidateAndDecodeMessage_cases message Hb ltac:(lia))
      as (x0 & ok1 & ok2 & H2 & Hx & Hok1 & Hok2 & Hr).
    split; [eauto|]. split; [split|].
    + intros Habs. right. exists x0. rewrite Habs in Hr.
      destruct ok1; [discriminate Hr|]. destruct ok2; [discriminate Hr|]. auto.
    + intros [?|(x' & H2' & Hf1 & Hf2)]; [lia|].
      assert (x' = x0) as -> by congruence.
      rewrite Hr. assert (ok1 = false) as -> by congruence.
      now assert (ok2 = false) as -> by congruence.
    + intros x Hframe Hshort H2'.
      assert (x0 = Z.lxor x 1) as -> by congruence.
      rewrite lxor_twice in Hok2.
      pose proof Hframe as (_ & _ & _ & _ & _ & Hok).
      assert (ok2 = true) as -> by congruence.
      rewrite Hr. split.
      * destruct ok1; unfold decoded; eauto.
      * rewrite Hok1. destruct ok1.
        -- split; [|discriminate]. unfold decoded. intros E.
           apply Done_inj in E. injection E as _ E _.
           now apply lxor_1_neq in E.
        -- split; [reflexivity|]. intros _.
           now rewrite lxor_twice, (decoded_frame _ _ Hframe Hshort).
Qed.

(** The raw frame [0x01, 0x03, 0x00, 0x02] is [0x00, 0x02, 0x01, 0x03]
    obfuscated with the key 1; its third byte is 0, the low-bit
    complement of that key, and under the key 0 it declares five bytes
    and fails validation. *)
Lemma ValidateAndDecodeMessage_absent_iff_witness :
  bytes [1; 3; 0; 2] /\ frame [1; 3; 0; 2] 1 /\ len [1; 3; 0; 2] <= 255 /\
  [1; 3; 0; 2] !! 2%nat = Some (Z.lxor 1 1) /\
  ValidateChecksum (XorMessageWith [1; 3; 0; 2] (Z.lxor 1 1)) = Done false /\
  ValidateAndDecodeMessage [1; 3; 0; 2]
  = Done (Some (XorMessageWith [1; 3; 0; 2] 1), 1, None).
Proof.
  assert (bytes [1; 3; 0; 2]) as Hb by (repeat constructor; lia).
  assert (frame [1; 3; 0; 2] 1) as F
    by (apply (bool_decide_unpack _); vm_compute; exact I).
  assert (len [1; 3; 0; 2] <= 255) as L by (unfold len; simpl; lia).
  assert (ValidateChecksum (XorMessageWith [1; 3; 0; 2] (Z.lxor 1 1)) = Done false)
    as V by reflexivity.
  split; [exact Hb|]. split; [exact F|]. split; [exact L|].
  split; [reflexivity|]. split; [exact V|].
  exact (proj2 (proj2 (proj2 (proj2 (ValidateAndDecodeMessage_absent_iff
           [1; 3; 0; 2] Hb)) 1 F L eq_refl)) V).
Defined.

(** C2 fails as stated: [0x01, 0x03, 0x00, 0x02] is a frame under the key
    1 and [0x06, 0x02, 0x00, 0x08] is a frame under the key 0, yet their
    concatenation also validates under the key 0 read from its third
    byte, with a declared length of five, and is split after five bytes. *)
Lemma decode_split_ambiguous :
  ~ (forall (frame1 frame2 : list Z) (x1 x2 : Z),
       frame frame1 x1 -> frame frame2 x2 ->
       ValidateAndDecodeMessage (frame1 ++ frame2)
       = Done (Some (XorMessageWith frame1 x1), x1, Some frame2)).
Proof.
  intros H.
  assert (frame [1; 3; 0; 2] 1) as F1
    by (apply (bool_decide_unpack _); vm_compute; exact I).
  assert (frame [6; 2; 0; 8] 0) as F2
    by (apply (bool_decide_unpack _); vm_compute; exact I).
  specialize (H _ _ _ _ F1 F2). vm_compute in H. discriminate H.
Qed.

(** C2, amended. Let [frame1] be a frame of at most 255 bytes under the
    key [x], followed by any bytes [rest] (none, or further frames).  If
    [x] is the third byte of [frame1], or the buffer does not validate
    under the low-bit complement of [x], then [ValidateAndDecodeMessage]
    on [frame1 ++ rest] returns [frame1] de-obfuscated, the key [x], and
    [rest] unchanged as the remainder, which is absent when [rest] is
    empty. *)
Theorem decode_split (frame1 rest : list Z) (x : Z) :
  frame frame1 x -> len frame1 <= 255 -> bytes rest ->
  (frame1 !! 2%nat = Some x \/
   ValidateChecksum (XorMessageWith (frame1 ++ rest) (Z.lxor x 1)) = Done false) ->
  ValidateAndDecodeMessage (frame1 ++ rest)
  = Done (Some (XorMessageWith frame1 x), x,
          if decide (rest = []) then None else Some rest).
Proof.
  intros (Hb1 & Hlen & Hx & Hkey & Hdecl & Hok) Hshort Hb2 Hfirst.
  assert (bytes (frame1 ++ rest)) as Hb by (now apply bytes_app).
  assert (len (frame1 ++ rest) = len frame1 + len rest) as Happ
    by (unfold len; rewrite length_app; lia).
  assert (0 <= len rest) as Hrest by (unfold len; lia).
  assert (ValidateChecksum (XorMessageWith (frame1 ++ rest) x) = Done true) as Hok'.
  { rewrite XorMessageWith_app.
    rewrite (ValidateChecksum_app _ _ (len frame1 - 2)); [done | done | lia |].
    unfold len. rewrite XorMessageWith_length. unfold len in *. lia. }
  destruct (ValidateAndDecodeMessage_cases _ Hb ltac:(lia))
    as (x0 & ok1 & ok2 & H2 & Hx0 & Hok1 & Hok2 & Hr).
  assert ((frame1 ++ rest) !! 2%nat = frame1 !! 2%nat) as H2'
    by (apply lookup_app_l; unfold len in *; lia).
  rewrite H2' in H2.
  assert (ValidateAndDecodeMessage (frame1 ++ rest)
          = Done (decoded (frame1 ++ rest) x)) as ->.
  { rewrite Hr. destruct Hfirst as [Hsame|Hfail].
    - assert (x0 = x) as -> by congruence.
      now assert (ok1 = true) as -> by congruence.
    - destruct Hkey as [Hsame|Hcompl].
      + assert (x0 = x) as -> by congruence.
        now assert (ok1 = true) as -> by congruence.
      + assert (x0 = Z.lxor x 1) as -> by congruence.
        rewrite lxor_twice in *.
        assert (ok1 = false) as -> by congruence.
        now assert (ok2 = true) as -> by congruence. }
  unfold decoded.
  assert (XorMessageWith (frame1 ++ rest) x !!! 1%nat = len frame1 - 2) as ->.
  { apply list_lookup_total_correct. rewrite XorMessageWith_app.
    now apply lookup_app_l_Some. }
  replace (len frame1 - 2 + 2) with (len frame1) by lia.
  rewrite byte_small by lia.
  assert (Z.to_nat (len frame1) = length frame1) as -> by (unfold len; lia).
  rewrite XorMessageWith_app, take_app_length', drop_app_length
    by (now rewrite XorMessageWith_length).
  do 2 f_equal.
  destruct rest as [|b rest].
  - rewrite decide_False by (rewrite Happ; unfold len; simpl; lia).
    now rewrite decide_True.
  - rewrite decide_True by (rewrite Happ; unfold len; simpl; lia).
    now rewrite decide_False.
Qed.

Lemma decode_split_witness :
  frame [1; 3; 0; 2] 1 /\ len [1; 3; 0; 2] <= 255 /\ bytes [5; 2; 0; 7] /\
  ValidateChecksum (XorMessageWith ([1; 3; 0; 2] ++ [5; 2; 0; 7]) (Z.lxor 1 1))
  = Done false /\
  ValidateAndDecodeMessage ([1; 3; 0; 2] ++ [5; 2; 0; 7])
  = Done (Some [0; 2; 1; 3], 1, Some [5; 2; 0; 7]).
Proof.
  assert (frame [1; 3; 0; 2] 1) as F
    by (apply (bool_decide_unpack _); vm_compute; exact I).
  assert (len [1; 3; 0; 2] <= 255) as L by (unfold len; simpl; lia).
  assert (bytes [5; 2; 0; 7]) as B by (repeat constructor; lia).
  assert (ValidateChecksum (XorMessageWith ([1; 3; 0; 2] ++ [5; 2; 0; 7]) (Z.lxor 1 1))
          = Done false) as V by reflexivity.
  split; [exact F|]. split; [exact L|]. split; [exact B|]. split; [exact V|].
  exact (decode_split [1; 3; 0; 2] [5; 2; 0; 7] 1 F L B (or_intror V)).
Defined.

(** ** The key map *)

Lemma land_8 (p : Z) : Z.land p 8 = if Z.testbit p 3 then 8 else 0.
Proof.
  apply Z.bits_inj'. intros n Hn. rewrite Z.land_spec.
  change 8 with (2 ^ 3). rewrite Z.pow2_bits_eqb by lia.
  destruct (Z.eqb_spec 3 n) as [<-|Hne].
  - rewrite andb_true_r. destruct (Z.testbit p 3); [|reflexivity].
    now rewrite Z.pow2_bits_eqb by lia.
  - rewrite andb_false_r. destruct (Z.testbit p 3).
    + rewrite Z.pow2_bits_eqb by lia. symmetry. now apply Z.eqb_neq.
    + now rewrite Z.bits_0.
Qed.

(** The eight masked and shifted bits, assembled: bit [k] of the result
    is the [k]-th of the bits put in. *)
Lemma assembled_bits (b4 b5 b6 b7 b8 b9 b10 b11 : bool) :
  let bit (b : bool) := if b then 8 else 0 in
  let result :=
    byte (Z.lor (Z.lor (Z.lor (Z.lor (Z.lor (Z.lor (Z.lor
      (Z.shiftr (bit b4) 3)
      (Z.shiftr (bit b5) 2))
      (Z.shiftr (bit b6) 1))
      (bit b7))
      (byte (Z.shiftl (bit b8) 1)))
      (byte (Z.shiftl (bit b9) 2)))
      (byte (Z.shiftl (bit b10) 3)))
      (byte (Z.shiftl (bit b11) 4))) in
  forall k : nat, (k < 8)%nat ->
    Z.testbit result (Z.of_nat k) = [b4; b5; b6; b7; b8; b9; b10; b11] !!! k.
Proof.
  cbv zeta. intros k Hk.
  do 8 (destruct k as [|k];
        [destruct b4, b5, b6, b7, b8, b9, b10, b11; reflexivity|]).
  lia.
Qed.

Lemma long_packet (packet : list Z) :
  12 <= len packet ->
  exists a0 a1 a2 a3 p4 p5 p6 p7 p8 p9 p10 p11 tl,
    packet = a0 :: a1 :: a2 :: a3 :: p4 :: p5 :: p6 :: p7
                :: p8 :: p9 :: p10 :: p11 :: tl.
Proof.
  unfold len. intros H.
  do 12 (destruct packet as [|? packet]; [simpl in H; lia|]).
  eauto 20.
Qed.

Lemma derive_key_bits (packet : list Z) :
  12 <= len packet ->
  exists key, derive_key packet = Done key /\ 0 <= key < 256 /\
    forall k : nat, (k < 8)%nat ->
      exists b, packet !! (4 + k)%nat = Some b /\
                Z.testbit key (Z.of_nat k) = Z.testbit b 3.
Proof.
  intros H.
  destruct (long_packet packet H)
    as (a0 & a1 & a2 & a3 & p4 & p5 & p6 & p7 & p8 & p9 & p10 & p11 & tl & ->).
  eexists. split; [|split].
  - unfold derive_key.
    rewrite (index_lookup _ 4 p4), (index_lookup _ 5 p5), (index_lookup _ 6 p6),
      (index_lookup _ 7 p7), (index_lookup _ 8 p8), (index_lookup _ 9 p9),
      (index_lookup _ 10 p10), (index_lookup _ 11 p11) by (lia || reflexivity).
    reflexivity.
  - apply byte_range.
  - intros k Hk. cbv zeta. rewrite !land_8.
    rewrite (assembled_bits (Z.testbit p4 3) (Z.testbit p5 3) (Z.testbit p6 3)
               (Z.testbit p7 3) (Z.testbit p8 3) (Z.testbit p9 3)
               (Z.testbit p10 3) (Z.testbit p11 3) k Hk).
    do 8 (destruct k as [|k]; [eexists; split; reflexivity|]). lia.
Qed.

Lemma swap_length (l : list Z) (i j : nat) : length (swap l i j) = length l.
Proof. unfold swap. now rewrite !length_insert. Qed.

(** Exchanging two entries permutes the list. *)
Lemma swap_Permutation (l : list Z) (i j : nat) :
  (i < length l)%nat -> (j < length l)%nat -> swap l i j ≡ₚ l.
Proof.
  intros Hi Hj. apply Permutation_inj. split; [apply swap_length|].
  exists (fun n => if decide (n = j) then i else if decide (n = i) then j else n).
  split.
  - intros n m. repeat case_decide; congruence.
  - intros n. unfold swap. repeat case_decide; subst.
    + rewrite list_lookup_insert_eq by (now rewrite length_insert).
      symmetry. now apply list_lookup_lookup_total_lt.
    + rewrite list_lookup_insert_ne, list_lookup_insert_eq by done.
      symmetry. now apply list_lookup_lookup_total_lt.
    + now rewrite !list_lookup_insert_ne.
Qed.

Lemma bijection256_length (l : list Z) : bijection256 l -> length l = 256%nat.
Proof. intros H. now rewrite (Permutation_length H), length_seqZ. Qed.

Lemma bijection256_bytes (l : list Z) : bijection256 l -> bytes l.
Proof.
  unfold bijection256. intros H. apply Forall_forall. intros v Hv.
  rewrite H in Hv. apply elem_of_seqZ in Hv. lia.
Qed.

(** One round of the loop of [Update] is one round of the shuffle, and it
    keeps the key map a bijection and the running index a byte. *)
Lemma shuffle_round_step (k : Z) (km : list Z) (idx : Z) (i : nat) :
  0 <= k -> bijection256 km -> 0 <= idx < 256 -> (i < 256)%nat ->
  shuffle_round k (km, idx) (Z.of_nat i) = Done (shuffle_step k (km, idx) i) /\
  bijection256 (shuffle_step k (km, idx) i).1 /\
  0 <= (shuffle_step k (km, idx) i).2 < 256.
Proof.
  intros Hk Hkm Hidx Hi.
  pose proof (bijection256_length _ Hkm) as Hlen.
  destruct (lookup_lt_is_Some_2 km i) as [v Hv]; [lia|].
  pose proof (bytes_lookup _ _ _ (bijection256_bytes _ Hkm) Hv) as Hvb.
  unfold shuffle_step. cbn [fst snd].
  rewrite (list_lookup_total_correct _ _ _ Hv).
  set (j := (idx + v + k) mod 256).
  assert (0 <= j < 256) as Hj by (apply Z.mod_pos_bound; lia).
  destruct (lookup_lt_is_Some_2 km (Z.to_nat j)) as [w Hw]; [lia|].
  split; [|split; [|exact Hj]].
  - unfold shuffle_round.
    rewrite (index_nat _ _ _ Hv), !bind_Done. cbv zeta.
    rewrite Z.rem_mod_nonneg by lia. fold j.
    rewrite (index_lookup _ j w) by (lia || done).
    rewrite bind_Done, store_nat, bind_Done by lia.
    unfold store. rewrite decide_True by (rewrite length_insert; lia).
    rewrite bind_Done. unfold swap.
    rewrite (list_lookup_total_correct _ _ _ Hv),
      (list_lookup_total_correct _ _ _ Hw).
    reflexivity.
  - unfold bijection256. rewrite swap_Permutation by lia. exact Hkm.
Qed.

Lemma shuffle_rounds (k : Z) :
  0 <= k ->
  forall (rounds : list nat) (km : list Z) (idx : Z),
    Forall (fun i => (i < 256)%nat) rounds ->
    bijection256 km -> 0 <= idx < 256 ->
    for_each (shuffle_round k) (km, idx) (map Z.of_nat rounds)
    = Done (foldl (shuffle_step k) (km, idx) rounds) /\
    bijection256 (foldl (shuffle_step k) (km, idx) rounds).1.
Proof.
  intros Hk. induction rounds as [|i rounds IH]; intros km idx Hr Hkm Hidx.
  - split; [reflexivity | exact Hkm].
  - apply Forall_cons in Hr as [Hi Hr].
    destruct (shuffle_round_step k km idx i Hk Hkm Hidx Hi) as (Hstep & Hb & Hj).
    cbn [map for_each foldl]. rewrite Hstep, bind_Done.
    destruct (shuffle_step k (km, idx) i) as [km' idx'].
    now apply IH.
Qed.

(** The key map that [Update] builds for a byte [k] is the shuffle for
    [k], and it is a bijection of 0..255. *)
Lemma build_keyMap_shuffle (k : Z) :
  0 <= k -> build_keyMap k = Done (shuffle k) /\ bijection256 (shuffle k).
Proof.
  intros Hk. unfold build_keyMap. cbv zeta.
  assert (for_each (fun km i => store km i (byte i)) (replicate 256 0)
                   (seqZ 0 (len (replicate 256 0))) = Done (seqZ 0 256)) as ->
    by (vm_compute; reflexivity).
  rewrite bind_Done.
  destruct (shuffle_rounds k Hk (seq 0 256) (seqZ 0 256) 0) as [Hrun Hb].
  - apply Forall_forall. intros i Hi. apply elem_of_seq in Hi. lia.
  - unfold bijection256. reflexivity.
  - lia.
  - replace (for_each (shuffle_round k) (seqZ 0 256, 0) (seqZ 0 256))
      with (for_each (shuffle_round k) (seqZ 0 256, 0) (map Z.of_nat (seq 0 256)))
      by reflexivity.
    rewrite Hrun, bind_Done. unfold shuffle.
    split; [|exact Hb].
    now destruct (foldl (shuffle_step k) (seqZ 0 256, 0) (seq 0 256)).
Qed.

Lemma ksa_rounds_repeated (k : Z) (rounds : list nat) :
  forall st : list Z * Z,
    Forall (fun i => (i < 256)%nat) rounds ->
    foldl (ksa_round (replicate 256 k)) st rounds = foldl (shuffle_step k) st rounds.
Proof.
  induction rounds as [|i l IH]; intros st Hr; [reflexivity|].
  apply Forall_cons in Hr as [Hi Hr]. cbn [foldl].
  rewrite <- IH by done. f_equal.
  destruct st as [perm j]. unfold ksa_round, shuffle_step. cbn [fst snd].
  rewrite length_replicate, Nat.mod_small by lia.
  now rewrite lookup_total_replicate_2 by lia.
Qed.

(** The RC4 key schedule for a byte repeated 256 times is the shuffle for
    that byte. *)
Lemma rc4_ksa_repeated (k : Z) : rc4_ksa (replicate 256 k) = shuffle k.
Proof.
  unfold rc4_ksa, shuffle. rewrite ksa_rounds_repeated; [reflexivity|].
  apply Forall_forall. intros i Hi. apply elem_of_seq in Hi. lia.
Qed.

(** ** [Update], [RKey] and [SKey] *)

Lemma Update_short (packet : list Z) (s : SecurityKey) :
  len packet < 12 ->
  Update packet s = Done (mkSecurityKey (State s) (proposedKey s) 0 [] 0 0).
Proof. intros H. unfold Update. now rewrite decide_True. Qed.

Lemma Update_long (packet : list Z) (s : SecurityKey) :
  12 <= len packet ->
  exists key,
    derive_key packet = Done key /\ 0 <= key < 256 /\
    (forall k : nat, (k < 8)%nat ->
       exists b, packet !! (4 + k)%nat = Some b /\
                 Z.testbit key (Z.of_nat k) = Z.testbit b 3) /\
    Update packet s
    = Done (mkSecurityKey (State s) (proposedKey s) key (shuffle key) 0 0).
Proof.
  intros H. destruct (derive_key_bits packet H) as (key & Hkey & Hr & Hbits).
  exists key. repeat split; try done; try lia.
  unfold Update. rewrite decide_False by lia.
  rewrite Hkey, bind_Done. cbv zeta. cbn [securityKey set_securityKey].
  destruct (build_keyMap_shuffle key) as [-> _]; [lia|].
  reflexivity.
Qed.

Lemma RKey_empty (b : bool) (s : SecurityKey) :
  keyMap s = [] -> RKey b s = Done (0, s).
Proof. intros H. unfold RKey. rewrite H. reflexivity. Qed.

Lemma SKey_empty (b : bool) (s : SecurityKey) :
  keyMap s = [] -> SKey b s = Done (0, s).
Proof. intros H. unfold SKey. rewrite H. reflexivity. Qed.

Lemma RKey_read (b : bool) (s : SecurityKey) (v : Z) :
  keyMap s !! Z.to_nat (rNum s) = Some v -> 0 <= rNum s ->
  RKey b s = Done (v, if b then set_rNum (byte (rNum s + 1)) s else s).
Proof.
  intros Hv Hr. unfold RKey.
  rewrite decide_False
    by (unfold len; apply lookup_lt_Some in Hv; lia).
  cbv zeta.
  assert (keyMap (if b then set_rNum (byte (rNum s + 1)) s else s) = keyMap s) as ->
    by (now destruct b).
  now rewrite (index_lookup _ _ v Hr Hv).
Qed.

Lemma SKey_read (b : bool) (s : SecurityKey) (v : Z) :
  keyMap s !! Z.to_nat (sNum s) = Some v -> 0 <= sNum s ->
  SKey b s = Done (v, if b then set_sNum (byte (sNum s + 1)) s else s).
Proof.
  intros Hv Hr. unfold SKey.
  rewrite decide_False
    by (unfold len; apply lookup_lt_Some in Hv; lia).
  cbv zeta.
  assert (keyMap (if b then set_sNum (byte (sNum s + 1)) s else s) = keyMap s) as ->
    by (now destruct b).
  now rewrite (index_lookup _ _ v Hr Hv).
Qed.

(** Without a key map every keystream call returns 0 and changes
    nothing. *)
Lemma run_keys_empty (s : SecurityKey) :
  keyMap s = [] ->
  forall cs : list call,
    key_calls cs ->
    run cs s = Done (replicate (length cs) (ByteValue 0), s).
Proof.
  unfold key_calls.
  intros Hs. induction cs as [|c cs IH]; intros Hcs; [reflexivity|].
  apply Forall_cons in Hcs as [Hc Hcs].
  cbn [run length replicate].
  assert (perform c s = Done (ByteValue 0, s)) as ->.
  { destruct c; try done; cbn [perform].
    - now rewrite RKey_empty.
    - now rewrite SKey_empty. }
  rewrite bind_Done. cbv beta iota. rewrite IH by done. reflexivity.
Qed.

(** Successive [RKey(true)] calls walk the key map from [rNum]. *)
Lemma run_RKey (n : nat) : forall (s : SecurityKey),
  length (keyMap s) = 256%nat -> 0 <= rNum s < 256 -> rNum s + Z.of_nat n <= 256 ->
  run (replicate n (CallRKey true)) s
  = Done (ByteValue <$> take n (drop (Z.to_nat (rNum s)) (keyMap s)),
          set_rNum (byte (rNum s + Z.of_nat n)) s).
Proof.
  induction n as [|n IH]; intros s Hlen Hr Hn.
  - cbn [replicate run take fmap list_fmap]. rewrite Z.add_0_r, byte_small by lia.
    now destruct s.
  - destruct (lookup_lt_is_Some_2 (keyMap s) (Z.to_nat (rNum s))) as [v Hv]; [lia|].
    cbn [replicate run perform]. rewrite (RKey_read true s v Hv (proj1 Hr)), !bind_Done.
    cbv beta iota.
    rewrite (drop_S _ _ _ Hv). cbn [take fmap list_fmap].
    destruct (decide (rNum s = 255)) as [E|E].
    + assert (n = 0%nat) as -> by lia. rewrite E. reflexivity.
    + rewrite IH; cbn [keyMap rNum set_rNum]; rewrite ?byte_small by lia; try lia.
      rewrite bind_Done. cbv beta iota.
      assert (Z.to_nat (rNum s + 1) = S (Z.to_nat (rNum s))) as -> by lia.
      assert (rNum s + 1 + Z.of_nat n = rNum s + Z.of_nat (S n)) as -> by lia.
      reflexivity.
Qed.

Lemma run_SKey (n : nat) : forall (s : SecurityKey),
  length (keyMap s) = 256%nat -> 0 <= sNum s < 256 -> sNum s + Z.of_nat n <= 256 ->
  run (replicate n (CallSKey true)) s
  = Done (ByteValue <$> take n (drop (Z.to_nat (sNum s)) (keyMap s)),
          set_sNum (byte (sNum s + Z.of_nat n)) s).
Proof.
  induction n as [|n IH]; intros s Hlen Hr Hn.
  - cbn [replicate run take fmap list_fmap]. rewrite Z.add_0_r, byte_small by lia.
    now destruct s.
  - destruct (lookup_lt_is_Some_2 (keyMap s) (Z.to_nat (sNum s))) as [v Hv]; [lia|].
    cbn [replicate run perform]. rewrite (SKey_read true s v Hv (proj1 Hr)), !bind_Done.
    cbv beta iota.
    rewrite (drop_S _ _ _ Hv). cbn [take fmap list_fmap].
    destruct (decide (sNum s = 255)) as [E|E].
    + assert (n = 0%nat) as -> by lia. rewrite E. reflexivity.
    + rewrite IH; cbn [keyMap sNum set_sNum]; rewrite ?byte_small by lia; try lia.
      rewrite bind_Done. cbv beta iota.
      assert (Z.to_nat (sNum s + 1) = S (Z.to_nat (sNum s))) as -> by lia.
      assert (sNum s + 1 + Z.of_nat n = sNum s + Z.of_nat (S n)) as -> by lia.
      reflexivity.
Qed.

(** ** The invariant *)

Lemma bijection256_each_once (l : list Z) :
  bijection256 l -> length l = 256%nat /\ each_once l.
Proof.
  intros H. split; [now apply bijection256_length|].
  unfold bijection256 in H. intros v Hv.
  assert (v ∈ l) as Hin by (rewrite H; apply elem_of_seqZ; lia).
  apply list_elem_of_lookup in Hin as [i Hi].
  exists i. split; [exact Hi|]. intros j Hj.
  assert (NoDup l) as Hnd by (rewrite H; apply NoDup_seqZ).
  exact (NoDup_lookup l j i v Hnd Hj Hi).
Qed.

Lemma key_ok_zero : key_ok zeroSecurityKey.
Proof. unfold key_ok. simpl. split; [now left | lia]. Qed.

Lemma Update_ok (packet : list Z) (s : SecurityKey) :
  exists s', Update packet s = Done s' /\ key_ok s' /\
             State s' = State s /\ proposedKey s' = proposedKey s.
Proof.
  destruct (decide (len packet < 12)) as [Hshort|Hlong].
  - eexists. split; [now apply Update_short|].
    unfold key_ok. simpl. split; [|done]. split; [now left | lia].
  - destruct (Update_long packet s) as (key & _ & Hkey & _ & ->); [lia|].
    eexists. split; [reflexivity|]. unfold key_ok. simpl.
    split; [|done]. split; [|lia]. right.
    now apply build_keyMap_shuffle.
Qed.

Lemma GenerateProposal_Done (rnd : nat -> Z) (s : SecurityKey) :
  GenerateProposal rnd s
  = Done (map (fun i => byte (rnd i)) (seq 0 8),
          mkSecurityKey SecurityKeyProposed (map (fun i => byte (rnd i)) (seq 0 8))
                        (securityKey s) (keyMap s) (sNum s) (rNum s)).
Proof. reflexivity. Qed.

Lemma key_read_ok (km : list Z) (n : Z) :
  bijection256 km -> 0 <= n < 256 -> exists v, km !! Z.to_nat n = Some v.
Proof.
  intros Hkm Hn. apply lookup_lt_is_Some_2.
  rewrite (bijection256_length _ Hkm). lia.
Qed.

Lemma perform_ok (c : call) (s : SecurityKey) :
  key_ok s -> exists r s', perform c s = Done (r, s') /\ key_ok s'.
Proof.
  intros (Hkm & Hs & Hr). destruct c as [rnd| |packet|b|b]; cbn [perform].
  - rewrite GenerateProposal_Done, bind_Done. eexists _, _.
    split; [reflexivity|]. unfold key_ok. simpl. auto.
  - unfold AcceptProposal.
    destruct (Update_ok ([0; 0; 0; 0] ++ proposedKey s) s) as (s' & -> & Hok & _).
    rewrite !bind_Done. eexists _, _. split; [reflexivity|].
    unfold key_ok in *. simpl. exact Hok.
  - destruct (Update_ok packet s) as (s' & -> & Hok & _).
    rewrite bind_Done. eauto.
  - destruct Hkm as [Hnil|Hbij].
    + rewrite RKey_empty, bind_Done by done. eexists _, _.
      split; [reflexivity|]. unfold key_ok. auto.
    + destruct (key_read_ok _ _ Hbij Hr) as [v Hv].
      rewrite (RKey_read b s v Hv) by lia. rewrite bind_Done.
      eexists _, _. split; [reflexivity|].
      pose proof (byte_range (rNum s + 1)).
      destruct b; unfold key_ok; simpl; auto.
  - destruct Hkm as [Hnil|Hbij].
    + rewrite SKey_empty, bind_Done by done. eexists _, _.
      split; [reflexivity|]. unfold key_ok. auto.
    + destruct (key_read_ok _ _ Hbij Hs) as [v Hv].
      rewrite (SKey_read b s v Hv) by lia. rewrite bind_Done.
      eexists _, _. split; [reflexivity|].
      pose proof (byte_range (sNum s + 1)).
      destruct b; unfold key_ok; simpl; auto.
Qed.

Lemma run_ok (cs : list call) : forall s : SecurityKey,
  key_ok s -> exists rs s', run cs s = Done (rs, s') /\ key_ok s'.
Proof.
  induction cs as [|c cs IH]; intros s Hs.
  - eexists _, _. split; [reflexivity | exact Hs].
  - destruct (perform_ok c s Hs) as (r & s1 & Hp & H1).
    destruct (IH s1 H1) as (rs & s2 & Hrun & H2).
    cbn [run]. rewrite Hp, bind_Done. cbv beta iota.
    rewrite Hrun, bind_Done. eauto.
Qed.

(** From counter 0, 256 calls return the whole key map and come back to
    the same state. *)
Lemma full_turn_RKey (s : SecurityKey) :
  length (keyMap s) = 256%nat -> rNum s = 0 ->
  run (replicate 256 (CallRKey true)) s = Done (ByteValue <$> keyMap s, s).
Proof.
  intros Hl H0. rewrite run_RKey by (rewrite ?H0; lia).
  rewrite H0. change (Z.to_nat 0) with 0%nat. rewrite drop_0, take_ge by lia.
  do 2 f_equal. destruct s. cbn in H0. now subst.
Qed.

Lemma full_turn_SKey (s : SecurityKey) :
  length (keyMap s) = 256%nat -> sNum s = 0 ->
  run (replicate 256 (CallSKey true)) s = Done (ByteValue <$> keyMap s, s).
Proof.
  intros Hl H0. rewrite run_SKey by (rewrite ?H0; lia).
  rewrite H0. change (Z.to_nat 0) with 0%nat. rewrite drop_0, take_ge by lia.
  do 2 f_equal. destruct s. cbn in H0. now subst.
Qed.

Lemma run_app (cs1 cs2 : list call) : forall (s s1 s2 : SecurityKey) rs1 rs2,
  run cs1 s = Done (rs1, s1) -> run cs2 s1 = Done (rs2, s2) ->
  run (cs1 ++ cs2) s = Done (rs1 ++ rs2, s2).
Proof.
  induction cs1 as [|c cs1 IH]; intros s s1 s2 rs1 rs2 H1 H2.
  - injection H1 as <- <-. exact H2.
  - cbn [app run] in *.
    destruct (perform c s) as [[r s']| |]; try discriminate H1.
    rewrite bind_Done in *. cbv beta iota in *.
    destruct (run cs1 s') as [[rs s'']| |] eqn:E; try discriminate H1.
    rewrite bind_Done in H1. injection H1 as <- <-.
    now rewrite (IH _ _ _ _ _ E H2).
Qed.

(** ** Theorems on the session key *)

(** C1. For every packet of at least 12 bytes, [Update] sets the
    security key to the byte whose bit [k] (k = 0..7) is bit 3 of
    [packet[4+k]]; rebuilds the key map as the shuffle of the identity
    [0..255] with 256 rounds of [index = (index + keyMap[i] + key) mod 256]
    followed by the exchange of [keyMap[i]] and [keyMap[index]]; resets
    both counters to 0; and leaves [State] (and the proposal) as they
    were.  On the scenario packet the key is 0xAD and the key map is the
    RC4 key schedule of the key byte 0xAD repeated 256 times. *)
Theorem Update_derives_key (packet : list Z) (s : SecurityKey) :
  12 <= len packet ->
  exists s',
    Update packet s = Done s' /\
    0 <= securityKey s' < 256 /\
    (forall k : nat, (k < 8)%nat ->
       exists b, packet !! (4 + k)%nat = Some b /\
                 Z.testbit (securityKey s') (Z.of_nat k) = Z.testbit b 3) /\
    keyMap s' = shuffle (securityKey s') /\
    sNum s' = 0 /\ rNum s' = 0 /\
    State s' = State s /\ proposedKey s' = proposedKey s /\
    (packet = scenario_packet ->
     securityKey s' = 0xAD /\ keyMap s' = rc4_ksa (replicate 256 0xAD)).
Proof.
  intros Hlen.
  destruct (Update_long packet s Hlen) as (key & Hkey & Hr & Hbits & Hup).
  eexists. split; [exact Hup|]. cbn [securityKey keyMap sNum rNum State proposedKey].
  do 7 (split; [done || lia|]).
  intros ->. assert (Done key = Done 173) as E by (rewrite <- Hkey; reflexivity).
  injection E as ->. split; [reflexivity|]. now rewrite rc4_ksa_repeated.
Qed.

Lemma Update_derives_key_witness :
  12 <= len scenario_packet /\
  exists s',
    Update scenario_packet zeroSecurityKey = Done s' /\
    0 <= securityKey s' < 256 /\
    (forall k : nat, (k < 8)%nat ->
       exists b, scenario_packet !! (4 + k)%nat = Some b /\
                 Z.testbit (securityKey s') (Z.of_nat k) = Z.testbit b 3) /\
    keyMap s' = shuffle (securityKey s') /\
    sNum s' = 0 /\ rNum s' = 0 /\
    State s' = State zeroSecurityKey /\
    proposedKey s' = proposedKey zeroSecurityKey /\
    (scenario_packet = scenario_packet ->
     securityKey s' = 0xAD /\ keyMap s' = rc4_ksa (replicate 256 0xAD)).
Proof.
  assert (12 <= len scenario_packet) as H by (unfold len; simpl; lia).
  split; [exact H|].
  exact (Update_derives_key scenario_packet zeroSecurityKey H).
Defined.

(** C3. From every session key that satisfies the invariant (the zero
    value does), every sequence of calls of [GenerateProposal],
    [AcceptProposal], [Update], [RKey] and [SKey] runs to the end and
    leaves a key map that is empty or has exactly 256 entries holding
    each value of 0..255 exactly once; and an [Update] with a packet of
    at least 12 bytes leaves a key map of the second kind. *)
Theorem keyMap_invariant (s : SecurityKey) (cs : list call) :
  key_ok s ->
  exists rs s',
    run cs s = Done (rs, s') /\
    key_ok s' /\
    (keyMap s' = [] \/ (length (keyMap s') = 256%nat /\ each_once (keyMap s'))) /\
    forall packet, 12 <= len packet ->
      exists s'', Update packet s' = Done s'' /\
                  length (keyMap s'') = 256%nat /\ each_once (keyMap s'').
Proof.
  intros Hs. destruct (run_ok cs s Hs) as (rs & s' & Hrun & Hok).
  exists rs, s'. split; [exact Hrun|]. split; [exact Hok|]. split.
  - destruct Hok as [[Hnil|Hbij] _]; [now left|].
    right. now apply bijection256_each_once.
  - intros packet Hlen.
    destruct (Update_long packet s' Hlen) as (key & _ & Hkey & _ & ->).
    eexists. split; [reflexivity|]. cbn [keyMap].
    apply bijection256_each_once. apply build_keyMap_shuffle. lia.
Qed.

Lemma keyMap_invariant_witness :
  key_ok zeroSecurityKey /\
  exists rs s',
    run [CallGenerateProposal (fun i => Z.of_nat i + 250); CallAcceptProposal;
         CallRKey true; CallSKey false; CallUpdate [1; 2; 3]; CallRKey true]
        zeroSecurityKey = Done (rs, s') /\
    key_ok s' /\
    (keyMap s' = [] \/ (length (keyMap s') = 256%nat /\ each_once (keyMap s'))) /\
    forall packet, 12 <= len packet ->
      exists s'', Update packet s' = Done s'' /\
                  length (keyMap s'') = 256%nat /\ each_once (keyMap s'').
Proof.
  assert (key_ok zeroSecurityKey) as H
    by (unfold key_ok; simpl; split; [left; reflexivity | lia]).
  split; [exact H|].
  exact (keyMap_invariant zeroSecurityKey _ H).
Defined.

(** C7. After an [Update] with a packet of at least 12 bytes, 256
    successive calls [RKey(true)] return [keyMap[0]], ..., [keyMap[255]]
    in index order (each value of 0..255 once) and bring [rNum] back to
    0, so that the 257th call returns [keyMap[0]] again; and the same
    holds of [SKey(true)] and [sNum]. *)
Theorem key_rotation (packet : list Z) (s : SecurityKey) :
  12 <= len packet ->
  exists s1 v0,
    Update packet s = Done s1 /\
    length (keyMap s1) = 256%nat /\ each_once (keyMap s1) /\
    keyMap s1 !! 0%nat = Some v0 /\
    run (replicate 256 (CallRKey true)) s1 = Done (ByteValue <$> keyMap s1, s1) /\
    run (replicate 257 (CallRKey true)) s1
    = Done ((ByteValue <$> keyMap s1) ++ [ByteValue v0], set_rNum 1 s1) /\
    run (replicate 256 (CallSKey true)) s1 = Done (ByteValue <$> keyMap s1, s1) /\
    run (replicate 257 (CallSKey true)) s1
    = Done ((ByteValue <$> keyMap s1) ++ [ByteValue v0], set_sNum 1 s1).
Proof.
  intros Hlen.
  destruct (Update_long packet s Hlen) as (key & _ & Hkey & _ & Hup).
  destruct (build_keyMap_shuffle key ltac:(lia)) as [_ Hbij].
  destruct (bijection256_each_once _ Hbij) as [Hl Honce].
  destruct (lookup_lt_is_Some_2 (shuffle key) 0) as [v0 Hv0]; [lia|].
  eexists _, v0. split; [exact Hup|].
  generalize dependent (shuffle key). intros km _ _ Hl Honce Hv0.
  cbn [keyMap].
  do 3 (split; [done|]).
  split; [|split; [|split]].
  - now apply full_turn_RKey.
  - change 257%nat with (256 + 1)%nat. rewrite replicate_add.
    eapply run_app; [now apply full_turn_RKey|].
    cbn [replicate run perform]. now rewrite (RKey_read true _ v0).
  - now apply full_turn_SKey.
  - change 257%nat with (256 + 1)%nat. rewrite replicate_add.
    eapply run_app; [now apply full_turn_SKey|].
    cbn [replicate run perform]. now rewrite (SKey_read true _ v0).
Qed.

Lemma key_rotation_witness :
  12 <= len scenario_packet /\
  exists s1 v0,
    Update scenario_packet zeroSecurityKey = Done s1 /\
    length (keyMap s1) = 256%nat /\ each_once (keyMap s1) /\
    keyMap s1 !! 0%nat = Some v0 /\
    run (replicate 256 (CallRKey true)) s1 = Done (ByteValue <$> keyMap s1, s1) /\
    run (replicate 257 (CallRKey true)) s1
    = Done ((ByteValue <$> keyMap s1) ++ [ByteValue v0], set_rNum 1 s1) /\
    run (replicate 256 (CallSKey true)) s1 = Done (ByteValue <$> keyMap s1, s1) /\
    run (replicate 257 (CallSKey true)) s1
    = Done ((ByteValue <$> keyMap s1) ++ [ByteValue v0], set_sNum 1 s1).
Proof.
  assert (12 <= len scenario_packet) as H by (unfold len; simpl; lia).
  split; [exact H|].
  exact (key_rotation scenario_packet zeroSecurityKey H).
Defined.

(** C8. For every packet of fewer than 12 bytes, [Update] leaves the key
    map empty, the security key 0 and both counters 0, and afterwards
    every call of [RKey] and of [SKey], with [increment] true or false,
    returns 0 and changes nothing, whatever the number and order of the
    calls. *)
Theorem Update_short_clears (packet : list Z) (s : SecurityKey) :
  len packet < 12 ->
  exists s',
    Update packet s = Done s' /\
    keyMap s' = [] /\ securityKey s' = 0 /\ sNum s' = 0 /\ rNum s' = 0 /\
    (forall b : bool, RKey b s' = Done (0, s') /\ SKey b s' = Done (0, s')) /\
    (forall cs : list call, key_calls cs ->
       run cs s' = Done (replicate (length cs) (ByteValue 0), s')).
Proof.
  intros Hlen. eexists. split; [now apply Update_short|].
  do 4 (split; [reflexivity|]). split.
  - intros b. split; [now apply RKey_empty | now apply SKey_empty].
  - now apply run_keys_empty.
Qed.

Lemma Update_short_clears_witness :
  len [94; 12; 0; 1; 2; 3; 4; 5; 6; 7; 8] < 12 /\
  exists s',
    Update [94; 12; 0; 1; 2; 3; 4; 5; 6; 7; 8] zeroSecurityKey = Done s' /\
    keyMap s' = [] /\ securityKey s' = 0 /\ sNum s' = 0 /\ rNum s' = 0 /\
    (forall b : bool, RKey b s' = Done (0, s') /\ SKey b s' = Done (0, s')) /\
    (forall cs : list call, key_calls cs ->
       run cs s' = Done (replicate (length cs) (ByteValue 0), s')).
Proof.
  assert (len [94; 12; 0; 1; 2; 3; 4; 5; 6; 7; 8] < 12) as H
    by (unfold len; simpl; lia).
  split; [exact H|].
  exact (Update_short_clears _ zeroSecurityKey H).
Defined.



(** * Further properties of the framing helpers *)

(** XORing with [x] and then with [y] is XORing once with [x ^ y], and
    the key 0 leaves a message as it is. *)
Theorem XorMessageWith_compose (message : list Z) (x y : Z) :
  XorMessageWith (XorMessageWith message x) y
  = XorMessageWith message (Z.lxor x y) /\
  XorMessageWith message 0 = message.
Proof.
  rewrite !XorMessageWith_map, map_map. split.
  - apply map_ext. intros b. apply Z.lxor_assoc.
  - rewrite <- (map_id message) at 2. apply map_ext. intros b. apply Z.lxor_0_r.
Qed.

Lemma sum_mod256_from (l : list Z) : forall acc : Z,
  0 <= acc < 256 ->
  foldl (fun acc v => (acc + v) mod 256) acc l = (acc + total l) mod 256.
Proof.
  induction l as [|v l IH]; intros acc Hacc; cbn [foldl total foldr].
  - rewrite Z.add_0_r. symmetry. apply Z.mod_small. lia.
  - fold (total l). rewrite IH by (apply Z.mod_pos_bound; lia).
    rewrite Zplus_mod_idemp_l. f_equal. lia.
Qed.

Lemma sum_mod256_total (l : list Z) : sum_mod256 l = total l mod 256.
Proof. unfold sum_mod256. now rewrite sum_mod256_from by lia. Qed.

Lemma total_insert (l : list Z) : forall (i : nat) (v w : Z),
  l !! i = Some v -> total (<[i := w]> l) = total l - v + w.
Proof.
  induction l as [|a l IH]; intros i v w Hi; [discriminate|].
  destruct i as [|i].
  - injection Hi as ->. change (w + total l = v + total l - v + w). lia.
  - change (a + total (<[i := w]> l) = a + total l - v + w).
    rewrite (IH i v w Hi). lia.
Qed.

(** The loop of [Checksum] panics when the bound lies past the end of the
    message. *)
Lemma Checksum_loop_short (message : list Z) (lim : Z) :
  lim <= 255 -> len message < lim ->
  forall (budget : nat) (i b : Z),
    0 <= i <= len message -> (Z.to_nat (len message - i) < budget)%nat ->
    Checksum_loop budget message lim i b = Panic.
Proof.
  intros Hlim Hlen. unfold len in *.
  induction budget as [|budget IH]; intros i b Hi Hbud; [lia|]. cbn [Checksum_loop].
  rewrite decide_False by lia.
  destruct (decide (i = Z.of_nat (length message))) as [->|Hne].
  - unfold index. rewrite decide_True by lia.
    now rewrite lookup_ge_None_2 by lia.
  - destruct (lookup_lt_is_Some_2 message (Z.to_nat i)) as [v Hv]; [lia|].
    rewrite (index_lookup _ i v) by (lia || done). rewrite bind_Done.
    rewrite byte_small by lia. apply IH; lia.
Qed.

Lemma Checksum_sum_total (message : list Z) (m1 : Z) :
  message !! 1%nat = Some m1 -> 0 <= m1 <= 254 -> m1 + 1 <= len message ->
  Checksum message = Done (total (take (Z.to_nat (m1 + 1)) message) mod 256).
Proof.
  intros H1 Hm1 Hlen. rewrite (Checksum_sum message m1 H1 Hm1 Hlen).
  rewrite sum_mod256_total. now replace (m1 + 2 - 1) with (m1 + 1) by lia.
Qed.

(** Below a length byte of 255, [Checksum] returns a byte, the integer
    sum of the bytes [message[0 .. message[1]]] reduced modulo 256:
    wrapping at every addition gives the same as wrapping once at the
    end. *)
Theorem Checksum_total_mod (message : list Z) (m1 : Z) :
  message !! 1%nat = Some m1 -> 0 <= m1 <= 254 -> m1 + 1 <= len message ->
  exists c, Checksum message = Done c /\ 0 <= c < 256 /\
            c = total (take (Z.to_nat (m1 + 1)) message) mod 256.
Proof.
  intros H1 Hm1 Hlen. eexists. split; [now apply (Checksum_sum_total message m1)|].
  split; [apply Z.mod_pos_bound; lia | reflexivity].
Qed.

Lemma Checksum_total_mod_witness :
  [16; 3; 170; 187; 120] !! 1%nat = Some 3 /\ 0 <= 3 <= 254 /\
  3 + 1 <= len [16; 3; 170; 187; 120] /\
  exists c, Checksum [16; 3; 170; 187; 120] = Done c /\ 0 <= c < 256 /\
            c = total (take (Z.to_nat (3 + 1)) [16; 3; 170; 187; 120]) mod 256.
Proof.
  assert (3 + 1 <= len [16; 3; 170; 187; 120]) as L by (unfold len; simpl; lia).
  split; [reflexivity|]. split; [lia|]. split; [exact L|].
  exact (Checksum_total_mod [16; 3; 170; 187; 120] 3 eq_refl ltac:(lia) L).
Defined.

(** [Checksum] always ends, and on a byte message it panics exactly when
    the message has fewer than two bytes, or its length byte is below 255
    and the message has fewer than [message[1] + 1] bytes. *)
Theorem Checksum_panics_iff (message : list Z) :
  bytes message ->
  Checksum message <> Spin /\
  (Checksum message = Panic <->
   len message < 2 \/
   exists m1, message !! 1%nat = Some m1 /\ m1 <= 254 /\ len message < m1 + 1).
Proof.
  intros Hb. destruct (decide (len message < 2)) as [Hshort|Hlong].
  - assert (Checksum message = Panic) as ->.
    { unfold Checksum, index. rewrite decide_True by lia.
      now rewrite lookup_ge_None_2 by (unfold len in *; lia). }
    split; [discriminate | tauto].
  - destruct (lookup_lt_is_Some_2 message 1) as [m1 H1]; [unfold len in *; lia|].
    pose proof (bytes_lookup _ _ _ Hb H1) as Hm1.
    destruct (decide (m1 = 255)) as [->|Hne];
      [|destruct (decide (m1 + 1 <= len message)) as [Hok|Hbad]].
    + rewrite (Checksum_255 message H1). split; [discriminate|].
      split; [discriminate|].
      intros [?|(m1' & H1' & Hle & Hlt)]; [lia|].
      assert (m1' = 255) by congruence. lia.
    + rewrite (Checksum_sum message m1 H1) by lia.
      split; [discriminate|]. split; [discriminate|].
      intros [?|(m1' & H1' & Hle & Hlt)]; [lia|].
      assert (m1' = m1) as -> by congruence. lia.
    + assert (Checksum message = Panic) as ->.
      { unfold Checksum. rewrite (index_lookup _ 1 _ ltac:(lia) H1), bind_Done.
        cbv zeta.
        assert (byte (byte (m1 + 2) - 1) = m1 + 1) as ->.
        { destruct (decide (m1 = 254)) as [->|]; [reflexivity|].
          rewrite (byte_small (m1 + 2)) by lia. rewrite byte_small by lia. lia. }
        apply Checksum_loop_short; unfold len in *; lia. }
      split; [discriminate|]. split; [|done].
      intros _. right. exists m1. split; [done | lia].
Qed.

Lemma Checksum_panics_iff_witness :
  bytes [16; 9; 170] /\
  Checksum [16; 9; 170] = Panic /\
  (Checksum [16; 9; 170] = Panic <->
   len [16; 9; 170] < 2 \/
   exists m1, [16; 9; 170] !! 1%nat = Some m1 /\ m1 <= 254 /\
              len [16; 9; 170] < m1 + 1).
Proof.
  assert (bytes [16; 9; 170]) as B by (repeat constructor; lia).
  split; [exact B|]. split; [reflexivity|].
  exact (proj2 (Checksum_panics_iff [16; 9; 170] B)).
Defined.

(** Below a length byte of 255, replacing one summed byte other than the
    length byte by a different byte changes the checksum. *)
Theorem Checksum_detects_byte_change (message : list Z) (m1 : Z) (i : nat) (v w : Z) :
  message !! 1%nat = Some m1 -> 0 <= m1 <= 254 -> m1 + 1 <= len message ->
  i <> 1%nat -> Z.of_nat i <= m1 ->
  message !! i = Some v -> 0 <= v < 256 -> 0 <= w < 256 -> w <> v ->
  exists c c',
    Checksum message = Done c /\
    Checksum (<[i := w]> message) = Done c' /\ c' <> c.
Proof.
  intros H1 Hm1 Hlen Hi1 Hi Hv Hvb Hwb Hne.
  assert (<[i := w]> message !! 1%nat = Some m1) as H1'
    by (now rewrite list_lookup_insert_ne).
  eexists _, _. split; [now apply (Checksum_sum_total message m1)|].
  split.
  - apply (Checksum_sum_total _ m1); [done | done |].
    unfold len in *. now rewrite length_insert.
  - rewrite take_insert_lt by lia.
    rewrite (total_insert _ i v w) by (rewrite lookup_take_lt by lia; done).
    generalize (total (take (Z.to_nat (m1 + 1)) message)). intros t.
    Z.div_mod_to_equations. lia.
Qed.

Lemma Checksum_detects_byte_change_witness :
  exists c c',
    Checksum [16; 3; 170; 187; 120] = Done c /\
    Checksum (<[2%nat := 171]> [16; 3; 170; 187; 120]) = Done c' /\ c' <> c.
Proof.
  apply (Checksum_detects_byte_change [16; 3; 170; 187; 120] 3 2 170 171);
    first [reflexivity | lia | (unfold len; simpl; lia)].
Defined.

(** Validation and the checksum read the declared frame only: bytes
    appended to a buffer that holds its whole declared frame change
    neither. *)
Theorem ValidateChecksum_ignores_trailing (d1 d2 : list Z) (m1 : Z) :
  bytes d1 -> d1 !! 1%nat = Some m1 -> m1 + 2 <= len d1 ->
  Checksum (d1 ++ d2) = Checksum d1 /\
  ValidateChecksum (d1 ++ d2) = ValidateChecksum d1.
Proof.
  intros Hb H1 Hlen.
  pose proof (bytes_lookup _ _ _ Hb H1) as Hm1.
  assert ((d1 ++ d2) !! 1%nat = Some m1) as H1' by (now apply lookup_app_l_Some).
  destruct (decide (m1 = 255)) as [->|Hne].
  - assert (Checksum (d1 ++ d2) = Checksum d1) as HC
      by (now rewrite !Checksum_255).
    split; [exact HC|]. unfold ValidateChecksum. rewrite HC.
    rewrite (index_lookup _ 1 _ ltac:(lia) H1), (index_lookup _ 1 _ ltac:(lia) H1').
    rewrite !bind_Done. cbv zeta.
    assert (len (d1 ++ d2) = len d1 + len d2) as Happ
      by (unfold len; rewrite length_app; lia).
    rewrite !decide_False by (unfold len in *; lia).
    destruct (lookup_lt_is_Some_2 d1 (Z.to_nat (255 + 2 - 1))) as [w Hw];
      [unfold len in *; lia|].
    rewrite (index_lookup d1 _ w), (index_lookup (d1 ++ d2) _ w);
      [reflexivity | lia | now apply lookup_app_l_Some | lia | done].
  - split; [|apply (ValidateChecksum_app d1 d2 m1); [done | lia | done]].
    rewrite (Checksum_sum _ m1 H1), (Checksum_sum _ m1 H1')
      by (unfold len in *; rewrite ?length_app; lia).
    rewrite take_app_le by (unfold len in *; lia). reflexivity.
Qed.

Lemma ValidateChecksum_ignores_trailing_witness :
  bytes [0; 2; 1; 3] /\ 2 + 2 <= len [0; 2; 1; 3] /\
  Checksum ([0; 2; 1; 3] ++ [9; 9]) = Checksum [0; 2; 1; 3] /\
  ValidateChecksum ([0; 2; 1; 3] ++ [9; 9]) = ValidateChecksum [0; 2; 1; 3].
Proof.
  assert (bytes [0; 2; 1; 3]) as B by (repeat constructor; lia).
  assert (2 + 2 <= len [0; 2; 1; 3]) as L by (unfold len; simpl; lia).
  split; [exact B|]. split; [exact L|].
  exact (ValidateChecksum_ignores_trailing [0; 2; 1; 3] [9; 9] 2 B eq_refl L).
Defined.

(** * Further properties of the decoder *)

Lemma XorMessageWith_take (message : list Z) (x : Z) (n : nat) :
  take n (XorMessageWith message x) = XorMessageWith (take n message) x.
Proof. rewrite !XorMessageWith_map. symmetry. apply fmap_take. Qed.

(** What a successful decode is made of. *)
Lemma ValidateAndDecodeMessage_Some (message d : list Z) (key : Z) (rest : option (list Z)) :
  bytes message ->
  ValidateAndDecodeMessage message = Done (Some d, key, rest) ->
  exists x m1,
    4 <= len message /\
    message !! 2%nat = Some x /\ 0 <= x < 256 /\ (key = x \/ key = Z.lxor x 1) /\
    ValidateChecksum (XorMessageWith message key) = Done true /\
    XorMessageWith message key !! 1%nat = Some m1 /\ 0 <= m1 < 256 /\
    m1 + 2 <= len message /\
    d = take (Z.to_nat (byte (m1 + 2))) (XorMessageWith message key) /\
    rest = (if decide (len message > byte (m1 + 2))
            then Some (drop (Z.to_nat (byte (m1 + 2))) message) else None).
Proof.
  intros Hb Hdec.
  destruct (decide (len message < 4)) as [Hshort|Hlong].
  { unfold ValidateAndDecodeMessage in Hdec. now rewrite decide_True in Hdec. }
  destruct (ValidateAndDecodeMessage_cases message Hb ltac:(lia))
    as (x & ok1 & ok2 & H2 & Hx & Hok1 & Hok2 & Hr).
  rewrite Hr in Hdec. clear Hr.
  assert (exists k, (k = x \/ k = Z.lxor x 1) /\
            ValidateChecksum (XorMessageWith message k) = Done true /\
            decoded message k = (Some d, key, rest)) as (k & Hk & Hok & Hd).
  { destruct ok1; [exists x; split; [now left | split; [done | congruence]]|].
    destruct ok2; [|discriminate Hdec].
    exists (Z.lxor x 1). split; [now right | split; [done | congruence]]. }
  unfold decoded in Hd. injection Hd as Hd Hkey Hrest. subst k.
  assert (0 <= key < 256) as Hkb
    by (destruct Hk as [->| ->]; [lia | apply lxor_byte; lia]).
  destruct (lookup_lt_is_Some_2 (XorMessageWith message key) 1) as [m1 H1];
    [rewrite XorMessageWith_length; unfold len in *; lia|].
  rewrite (list_lookup_total_correct _ _ _ H1) in Hd, Hrest.
  pose proof (ValidateChecksum_true_len _ _ H1 Hok) as Hdecl.
  unfold len in Hdecl. rewrite XorMessageWith_length in Hdecl.
  exists x, m1. repeat (split; [first [done | lia | idtac]|]); try done.
  - eapply bytes_lookup; [apply XorMessageWith_bytes|]; eauto.
  - eapply bytes_lookup; [apply XorMessageWith_bytes|]; eauto.
Qed.

Lemma XorMessageWith_lookup (message : list Z) (x : Z) (i : nat) :
  XorMessageWith message x !! i = (fun b => Z.lxor b x) <$> message !! i.
Proof. rewrite XorMessageWith_map. apply list_lookup_fmap. Qed.

(** Round trip.  Take a frame of 4 to 255 bytes whose second byte is its
    length minus 2, whose third byte is 0 and whose last byte is the sum
    of the bytes before it modulo 256.  Obfuscated with any key byte [x],
    it is decoded to itself, with the key [x] and no remainder. *)
Theorem encode_decode_roundtrip (d : list Z) (x : Z) :
  bytes d -> 0 <= x < 256 -> 4 <= len d <= 255 ->
  d !! 1%nat = Some (len d - 2) ->
  d !! 2%nat = Some 0 ->
  d !! (length d - 1)%nat = Some (total (take (length d - 1) d) mod 256) ->
  ValidateAndDecodeMessage (XorMessageWith d x) = Done (Some d, x, None).
Proof.
  intros Hb Hx Hlen H1 H2 Hsum.
  set (raw := XorMessageWith d x).
  assert (bytes raw) as Hraw by (now apply XorMessageWith_bytes).
  assert (len raw = len d) as Hl
    by (unfold len, raw; now rewrite XorMessageWith_length).
  assert (ValidateChecksum d = Done true) as Hok.
  { destruct (ValidateChecksum_cases d (len d - 2) H1 ltac:(lia)) as [_ Hlong].
    destruct Hlong as (c & w & Hc & Hw & ->); [lia|].
    rewrite (Checksum_sum d _ H1), sum_mod256_total in Hc by lia.
    apply index_Done in Hw as [_ Hw].
    replace (Z.to_nat (len d - 2 + 2 - 1)) with (length d - 1)%nat in Hc, Hw
      by (unfold len; lia).
    f_equal. apply bool_decide_eq_true. congruence. }
  destruct (ValidateAndDecodeMessage_cases raw Hraw ltac:(lia))
    as (x0 & ok1 & ok2 & H2' & _ & Hok1 & _ & ->).
  assert (raw !! 2%nat = Some x) as Hraw2
    by (unfold raw; rewrite XorMessageWith_lookup, H2; cbn; now rewrite Z.lxor_0_l).
  assert (x0 = x) as -> by congruence.
  assert (XorMessageWith raw x = d) as Hback by apply XorMessageWith_twice.
  rewrite Hback in Hok1.
  assert (ok1 = true) as -> by congruence.
  unfold decoded. rewrite Hback.
  rewrite (list_lookup_total_correct _ _ _ H1).
  replace (len d - 2 + 2) with (len d) by lia. rewrite byte_small by lia.
  rewrite Hl, decide_False by lia.
  rewrite take_ge by (unfold len; lia). reflexivity.
Qed.

Lemma encode_decode_roundtrip_witness :
  ValidateAndDecodeMessage (XorMessageWith [111; 4; 0; 23; 170; 52] 91)
  = Done (Some [111; 4; 0; 23; 170; 52], 91, None).
Proof.
  apply (encode_decode_roundtrip [111; 4; 0; 23; 170; 52] 91);
    first [reflexivity | lia | (unfold len; simpl; lia)
          | (repeat constructor; lia)].
Defined.

(** Whatever is decoded, nothing is lost: the key returned is the third
    byte of the buffer or its low-bit complement, the decoded frame
    XORed again with that key and followed by the remainder is the
    buffer, a remainder that is present is not empty, and the third byte
    of the decoded frame, when it has one, is 0 or 1. *)
Theorem decode_reassembles (message d : list Z) (key : Z) (rest : option (list Z)) :
  bytes message ->
  ValidateAndDecodeMessage message = Done (Some d, key, rest) ->
  (message !! 2%nat = Some key \/ message !! 2%nat = Some (Z.lxor key 1)) /\
  XorMessageWith d key ++ default [] rest = message /\
  rest <> Some [] /\
  (forall v, d !! 2%nat = Some v -> v = 0 \/ v = 1).
Proof.
  intros Hb Hdec.
  destruct (ValidateAndDecodeMessage_Some _ _ _ _ Hb Hdec)
    as (x & m1 & Hlen & H2 & Hx & Hk & Hok & H1 & Hm1 & Hdecl & -> & ->).
  pose proof (byte_range (m1 + 2)) as Hr.
  assert (byte (m1 + 2) <= m1 + 2) as Hle by (unfold byte; apply Z.mod_le; lia).
  split; [|split; [|split]].
  - destruct Hk as [->| ->]; [now left | right; now rewrite lxor_twice].
  - rewrite XorMessageWith_take, XorMessageWith_twice.
    destruct (decide (len message > byte (m1 + 2))); cbn [from_option id].
    + apply take_drop.
    + rewrite app_nil_r. apply take_ge. unfold len in *. lia.
  - destruct (decide (len message > byte (m1 + 2))); [|discriminate].
    intros E. injection E as E. apply (f_equal length) in E.
    rewrite length_drop in E. unfold len in *. cbn in E. lia.
  - intros v Hv. apply lookup_take_Some in Hv as [Hv _].
    rewrite XorMessageWith_lookup, H2 in Hv. cbn in Hv. injection Hv as <-.
    destruct Hk as [->| ->].
    + left. apply Z.lxor_nilpotent.
    + right. now rewrite <- Z.lxor_assoc, Z.lxor_nilpotent.
Qed.

Lemma decode_reassembles_witness :
  bytes [1; 3; 0; 2; 6; 2; 0; 8] /\
  ValidateAndDecodeMessage [1; 3; 0; 2; 6; 2; 0; 8]
  = Done (Some [1; 3; 0; 2; 6], 0, Some [2; 0; 8]) /\
  XorMessageWith [1; 3; 0; 2; 6] 0 ++ default [] (Some [2; 0; 8])
  = [1; 3; 0; 2; 6; 2; 0; 8].
Proof.
  assert (bytes [1; 3; 0; 2; 6; 2; 0; 8]) as B by (repeat constructor; lia).
  assert (ValidateAndDecodeMessage [1; 3; 0; 2; 6; 2; 0; 8]
          = Done (Some [1; 3; 0; 2; 6], 0, Some [2; 0; 8])) as D by reflexivity.
  split; [exact B|]. split; [exact D|].
  exact (proj1 (proj2 (decode_reassembles _ _ _ _ B D))).
Defined.

(** A decoded frame whose length byte is at most 253 is a whole frame:
    its length is that byte plus 2, it passes [ValidateChecksum] by
    itself, and the remainder is shorter than the buffer by exactly the
    length of the frame. *)
Theorem decode_validates (message d : list Z) (key m1 : Z) (rest : option (list Z)) :
  bytes message ->
  ValidateAndDecodeMessage message = Done (Some d, key, rest) ->
  d !! 1%nat = Some m1 -> m1 <= 253 ->
  len d = m1 + 2 /\
  ValidateChecksum d = Done true /\
  len (default [] rest) = len message - len d.
Proof.
  intros Hb Hdec Hd1 Hsmall.
  destruct (ValidateAndDecodeMessage_Some _ _ _ _ Hb Hdec)
    as (x & m1' & Hlen & H2 & Hx & Hk & Hok & H1 & Hm1 & Hdecl & -> & ->).
  apply lookup_take_Some in Hd1 as [Hd1 Hlt].
  assert (m1' = m1) as -> by congruence.
  rewrite byte_small in * by lia.
  set (msg := XorMessageWith message key) in *.
  assert (length msg = length message) as Hl by apply XorMessageWith_length.
  assert (len (take (Z.to_nat (m1 + 2)) msg) = m1 + 2) as Hld
    by (unfold len in *; rewrite length_take; lia).
  split; [exact Hld|]. split.
  - rewrite <- (take_drop (Z.to_nat (m1 + 2)) msg) in Hok.
    rewrite (ValidateChecksum_app _ _ m1) in Hok; [done | | lia | lia].
    now rewrite lookup_take_lt by lia.
  - rewrite Hld. destruct (decide (len message > m1 + 2)); cbn [from_option id].
    + unfold len. rewrite length_drop. unfold len in *. lia.
    + unfold len in *. cbn [length]. lia.
Qed.

Lemma decode_validates_witness :
  bytes [1; 3; 0; 2; 6; 2; 0; 8] /\
  len [1; 3; 0; 2; 6] = 3 + 2 /\
  ValidateChecksum [1; 3; 0; 2; 6] = Done true /\
  len (default [] (Some [2; 0; 8])) = len [1; 3; 0; 2; 6; 2; 0; 8] - len [1; 3; 0; 2; 6].
Proof.
  assert (bytes [1; 3; 0; 2; 6; 2; 0; 8]) as B by (repeat constructor; lia).
  split; [exact B|].
  exact (decode_validates [1; 3; 0; 2; 6; 2; 0; 8] [1; 3; 0; 2; 6] 0 3
           (Some [2; 0; 8]) B eq_refl eq_refl ltac:(lia)).
Defined.

(** With a length byte of 254 or 255 the byte-wide [length] of the
    decoder wraps to 0 or 1: a buffer that validates under its third byte
    is "decoded" to no byte, or to its first byte alone, and all the
    other bytes come back as the remainder. *)
Theorem decode_length_wraps (message : list Z) (x m1 : Z) :
  bytes message -> message !! 2%nat = Some x ->
  ValidateChecksum (XorMessageWith message x) = Done true ->
  XorMessageWith message x !! 1%nat = Some m1 -> 254 <= m1 ->
  ValidateAndDecodeMessage message
  = Done (Some (take (Z.to_nat (m1 - 254)) (XorMessageWith message x)), x,
          Some (drop (Z.to_nat (m1 - 254)) message)).
Proof.
  intros Hb H2 Hok H1 Hbig.
  pose proof (bytes_lookup _ _ _ Hb H2) as Hx.
  assert (0 <= m1 < 256) as Hm1
    by (eapply bytes_lookup; [apply XorMessageWith_bytes|]; eauto).
  pose proof (ValidateChecksum_true_len _ _ H1 Hok) as Hdecl.
  unfold len in Hdecl. rewrite XorMessageWith_length in Hdecl.
  destruct (ValidateAndDecodeMessage_cases message Hb ltac:(unfold len; lia))
    as (x0 & ok1 & ok2 & H2' & _ & Hok1 & _ & ->).
  assert (x0 = x) as -> by congruence.
  assert (ok1 = true) as -> by congruence.
  unfold decoded. rewrite (list_lookup_total_correct _ _ _ H1).
  assert (byte (m1 + 2) = m1 - 254) as ->
    by (unfold byte; Z.div_mod_to_equations; lia).
  now rewrite decide_True by (unfold len; lia).
Qed.

Lemma decode_length_wraps_witness :
  let message := 0 :: 254 :: replicate 253 0 ++ [254] in
  bytes message /\ len message = 256 /\
  ValidateAndDecodeMessage message = Done (Some [], 0, Some message).
Proof.
  cbv zeta.
  assert (bytes (0 :: 254 :: replicate 253 0 ++ [254])) as B.
  { unfold bytes. do 2 (constructor; [lia|]). apply Forall_app. split.
    - apply Forall_replicate. lia.
    - repeat constructor; lia. }
  split; [exact B|]. split; [reflexivity|].
  exact (decode_length_wraps (0 :: 254 :: replicate 253 0 ++ [254]) 0 254
           B eq_refl eq_refl eq_refl ltac:(lia)).
Defined.

(** * Further properties of the session key *)

Lemma byte_testbit_high (a n : Z) : 0 <= a < 256 -> 8 <= n -> Z.testbit a n = false.
Proof.
  intros Ha Hn. rewrite <- (byte_small a Ha). unfold byte.
  change 256 with (2 ^ 8). apply Z.mod_pow2_bits_high. lia.
Qed.

Lemma byte_eq_of_bits (a b : Z) :
  0 <= a < 256 -> 0 <= b < 256 ->
  (forall k : nat, (k < 8)%nat -> Z.testbit a (Z.of_nat k) = Z.testbit b (Z.of_nat k)) ->
  a = b.
Proof.
  intros Ha Hb H. apply Z.bits_inj'. intros n Hn.
  destruct (decide (n < 8)) as [Hlt|Hge].
  - rewrite <- (Z2Nat.id n Hn). apply H. lia.
  - now rewrite !byte_testbit_high by lia.
Qed.

(** [Update] forgets the key material it finds: after any [Update], a
    second [Update] gives what it gives on the first state.  So deriving
    twice from one packet is deriving once. *)
Theorem Update_overrides (p q : list Z) (s : SecurityKey) :
  (Update p s ≫= Update q) = Update q s /\
  (Update p s ≫= Update p) = Update p s.
Proof.
  assert (forall q, (Update p s ≫= Update q) = Update q s) as H; [|now split].
  clear q. intros q.
  destruct (Update_ok p s) as (s1 & -> & _ & HS & HP). rewrite bind_Done.
  destruct (decide (len q < 12)) as [Hshort|Hlong].
  - rewrite !Update_short by done. now rewrite HS, HP.
  - destruct (Update_long q s1 ltac:(lia)) as (k1 & Hk1 & _ & _ & ->).
    destruct (Update_long q s ltac:(lia)) as (k2 & Hk2 & _ & _ & ->).
    assert (k1 = k2) as -> by congruence. now rewrite HS, HP.
Qed.

(** Of a handshake packet [Update] uses bit 3 of the bytes 4 to 11 and
    nothing else: two packets of at least 12 bytes give the same session
    key exactly when they agree on these eight bits. *)
Theorem Update_reads_bit_3 (p q : list Z) (s : SecurityKey) :
  12 <= len p -> 12 <= len q ->
  (Update p s = Update q s <->
   forall k : nat, (k < 8)%nat ->
     exists a b, p !! (4 + k)%nat = Some a /\ q !! (4 + k)%nat = Some b /\
                 Z.testbit a 3 = Z.testbit b 3).
Proof.
  intros Hp Hq.
  destruct (Update_long p s Hp) as (kp & _ & Hkp & Hbp & ->).
  destruct (Update_long q s Hq) as (kq & _ & Hkq & Hbq & ->).
  split.
  - intros E k Hk. apply Done_inj, (f_equal securityKey) in E.
    cbn [securityKey] in E.
    destruct (Hbp k Hk) as (a & Ha & Hta). destruct (Hbq k Hk) as (b & Hb & Htb).
    exists a, b. split; [done|]. split; [done|]. congruence.
  - intros H. assert (kp = kq) as ->; [|reflexivity].
    apply byte_eq_of_bits; [done | done |].
    intros k Hk. destruct (H k Hk) as (a & b & Ha & Hb & Hab).
    destruct (Hbp k Hk) as (a' & Ha' & ->). destruct (Hbq k Hk) as (b' & Hb' & ->).
    congruence.
Qed.

Lemma Update_reads_bit_3_witness :
  12 <= len scenario_packet /\
  12 <= len [1; 2; 3; 4; 0xFF; 0xF7; 0x0F; 0x08; 0x00; 0xFF; 0x07; 0x3C; 9; 9] /\
  Update scenario_packet zeroSecurityKey
  = Update [1; 2; 3; 4; 0xFF; 0xF7; 0x0F; 0x08; 0x00; 0xFF; 0x07; 0x3C; 9; 9]
           zeroSecurityKey.
Proof.
  assert (12 <= len scenario_packet) as Hp by (unfold len; simpl; lia).
  assert (12 <= len [1; 2; 3; 4; 0xFF; 0xF7; 0x0F; 0x08; 0x00; 0xFF; 0x07; 0x3C; 9; 9])
    as Hq by (unfold len; simpl; lia).
  split; [exact Hp|]. split; [exact Hq|].
  apply (proj2 (Update_reads_bit_3 _ _ zeroSecurityKey Hp Hq)).
  intros k Hk. do 8 (destruct k as [|k]; [eexists _, _; repeat split|]). lia.
Defined.

Lemma shuffle_NoDup : NoDup (shuffle <$> seqZ 0 256).
Proof. apply (bool_decide_unpack _). vm_compute. exact I. Qed.

(** The key map tells the key: two handshake packets that lead to the
    same key map lead to the same security key. *)
Theorem keyMap_determines_key (p q : list Z) (s t s1 t1 : SecurityKey) :
  12 <= len p -> 12 <= len q ->
  Update p s = Done s1 -> Update q t = Done t1 ->
  keyMap s1 = keyMap t1 -> securityKey s1 = securityKey t1.
Proof.
  intros Hp Hq Hs Ht.
  destruct (Update_long p s Hp) as (kp & _ & Hkp & _ & Hup).
  destruct (Update_long q t Hq) as (kq & _ & Hkq & _ & Huq).
  rewrite Hup in Hs. rewrite Huq in Ht.
  apply Done_inj in Hs, Ht. subst s1 t1.
  cbn [keyMap securityKey]. intros E.
  assert (forall k, 0 <= k < 256 ->
            (shuffle <$> seqZ 0 256) !! Z.to_nat k = Some (shuffle k)) as Hl.
  { intros k Hk. rewrite list_lookup_fmap, lookup_seqZ_lt by lia.
    cbn [fmap option_fmap option_map]. now rewrite Z.add_0_l, Z2Nat.id by lia. }
  pose proof (NoDup_lookup _ _ _ _ shuffle_NoDup (Hl kp Hkp)
                (eq_trans (Hl kq Hkq) (f_equal Some (eq_sym E)))) as Hi.
  lia.
Qed.

Lemma keyMap_determines_key_witness :
  exists s1 t1,
    Update scenario_packet zeroSecurityKey = Done s1 /\
    Update (replicate 4 7 ++ scenario_packet ++ [1; 2])
           (set_State SecurityKeyAccepted zeroSecurityKey) = Done t1 /\
    (keyMap s1 = keyMap t1 -> securityKey s1 = securityKey t1).
Proof.
  destruct (Update_ok scenario_packet zeroSecurityKey) as (s1 & Hs & _).
  destruct (Update_ok (replicate 4 7 ++ scenario_packet ++ [1; 2])
              (set_State SecurityKeyAccepted zeroSecurityKey)) as (t1 & Ht & _).
  exists s1, t1. split; [exact Hs|]. split; [exact Ht|].
  apply (keyMap_determines_key scenario_packet
           (replicate 4 7 ++ scenario_packet ++ [1; 2])
           zeroSecurityKey (set_State SecurityKeyAccepted zeroSecurityKey) s1 t1);
    first [exact Hs | exact Ht | (unfold len; simpl; lia)].
Defined.

Lemma byte_testbit_low (z n : Z) : 0 <= n < 8 -> Z.testbit (byte z) n = Z.testbit z n.
Proof.
  intros Hn. unfold byte. change 256 with (2 ^ 8).
  apply Z.mod_pow2_bits_low. lia.
Qed.

(** [AcceptProposal] always ends in the state Accepted and keeps the
    proposal.  With a stored proposal of fewer than 8 bytes it clears the
    key; with 8 bytes or more it derives the key from bit 3 of the first
    eight bytes of the proposal and builds a full key map. *)
Theorem AcceptProposal_by_length (s : SecurityKey) :
  exists s',
    AcceptProposal s = Done s' /\
    State s' = SecurityKeyAccepted /\ proposedKey s' = proposedKey s /\
    sNum s' = 0 /\ rNum s' = 0 /\
    ((length (proposedKey s) < 8)%nat -> keyMap s' = [] /\ securityKey s' = 0) /\
    ((8 <= length (proposedKey s))%nat ->
     bijection256 (keyMap s') /\
     forall k : nat, (k < 8)%nat ->
       exists b, proposedKey s !! k = Some b /\
                 Z.testbit (securityKey s') (Z.of_nat k) = Z.testbit b 3).
Proof.
  unfold AcceptProposal.
  assert (len ([0; 0; 0; 0] ++ proposedKey s) = 4 + Z.of_nat (length (proposedKey s)))
    as Hl by (unfold len; rewrite length_app; simpl; lia).
  destruct (decide (length (proposedKey s) < 8)%nat) as [Hshort|Hlong].
  - rewrite Update_short, bind_Done by lia. eexists. split; [reflexivity|].
    cbn. repeat split; try done; lia.
  - destruct (Update_long ([0; 0; 0; 0] ++ proposedKey s) s ltac:(lia))
      as (key & _ & Hkey & Hbits & ->).
    rewrite bind_Done. eexists. split; [reflexivity|].
    cbn [State proposedKey sNum rNum keyMap securityKey set_State].
    do 4 (split; [reflexivity|]). split; [lia|]. intros _. split.
    + apply build_keyMap_shuffle. lia.
    + intros k Hk. destruct (Hbits k Hk) as (b & Hb & Ht).
      exists b. split; [exact Hb | exact Ht].
Qed.

(** A proposal that was generated is accepted with a full key:
    [GenerateProposal] returns and stores eight bytes, and the
    [AcceptProposal] that follows derives the security key whose bit [k]
    is bit 3 of the [k]-th random draw, with a key map that is a
    bijection of 0..255. *)
Theorem generated_proposal_accepted (rnd : nat -> Z) (s : SecurityKey) :
  exists p s1 s2,
    GenerateProposal rnd s = Done (p, s1) /\
    length p = 8%nat /\ bytes p /\
    proposedKey s1 = p /\ State s1 = SecurityKeyProposed /\
    keyMap s1 = keyMap s /\ sNum s1 = sNum s /\ rNum s1 = rNum s /\
    AcceptProposal s1 = Done s2 /\
    State s2 = SecurityKeyAccepted /\ proposedKey s2 = p /\
    bijection256 (keyMap s2) /\
    (forall k : nat, (k < 8)%nat ->
       Z.testbit (securityKey s2) (Z.of_nat k) = Z.testbit (rnd k) 3).
Proof.
  destruct (Update_long ([0; 0; 0; 0] ++ map (fun i => byte (rnd i)) (seq 0 8))
              (mkSecurityKey SecurityKeyProposed (map (fun i => byte (rnd i)) (seq 0 8))
                 (securityKey s) (keyMap s) (sNum s) (rNum s)))
    as (key & _ & Hkey & Hbits & Hup); [unfold len; simpl; lia|].
  rewrite GenerateProposal_Done. eexists _, _, _. split; [reflexivity|].
  cbn [proposedKey State keyMap sNum rNum].
  split; [reflexivity|]. split.
  { unfold bytes. apply Forall_forall. intros b Hb.
    apply list_elem_of_fmap in Hb as (i & -> & _). apply byte_range. }
  do 5 (split; [reflexivity|]).
  unfold AcceptProposal.
  cbn [proposedKey] in *. rewrite Hup, bind_Done. split; [reflexivity|].
  cbn [State proposedKey keyMap securityKey set_State].
  do 2 (split; [reflexivity|]). split; [apply build_keyMap_shuffle; lia|].
  intros k Hk. destruct (Hbits k Hk) as (b & Hb & ->).
  do 8 (destruct k as [|k];
        [injection Hb as <-; apply byte_testbit_low; lia|]).
  lia.
Qed.

Lemma byte_add_succ (r : Z) (n : nat) :
  (byte (r + 1) + Z.of_nat n) mod 256 = (r + Z.of_nat (S n)) mod 256.
Proof. unfold byte. rewrite Zplus_mod_idemp_l. f_equal. lia. Qed.

Lemma keystream_shift (km : list Z) (r v : Z) (n : nat) :
  0 <= r < 256 -> km !! Z.to_nat r = Some v ->
  ByteValue v
    :: ((fun i => ByteValue (km !!! Z.to_nat ((byte (r + 1) + Z.of_nat i) mod 256)))
          <$> seq 0 n)
  = (fun i => ByteValue (km !!! Z.to_nat ((r + Z.of_nat i) mod 256))) <$> seq 0 (S n).
Proof.
  intros Hr Hv. change (seq 0 (S n)) with (0%nat :: seq 1 n).
  rewrite fmap_cons, <- fmap_S_seq, <- list_fmap_compose.
  rewrite Z.add_0_r, Z.mod_small by lia.
  rewrite (list_lookup_total_correct _ _ _ Hv). f_equal.
  apply list_fmap_ext. intros i j _. cbn. now rewrite byte_add_succ.
Qed.

(** From any position of the counter, the [i]-th of [n] successive calls
    [RKey(true)] returns the key map entry at [(rNum + i) mod 256] and
    the counter ends at [(rNum + n) mod 256]: the keystream repeats with
    period 256.  The same holds of [SKey(true)] and [sNum]. *)
Theorem keystream_closed_form (n : nat) (s : SecurityKey) :
  length (keyMap s) = 256%nat -> 0 <= rNum s < 256 -> 0 <= sNum s < 256 ->
  run (replicate n (CallRKey true)) s
  = Done ((fun i => ByteValue (keyMap s !!! Z.to_nat ((rNum s + Z.of_nat i) mod 256)))
            <$> seq 0 n,
          set_rNum ((rNum s + Z.of_nat n) mod 256) s) /\
  run (replicate n (CallSKey true)) s
  = Done ((fun i => ByteValue (keyMap s !!! Z.to_nat ((sNum s + Z.of_nat i) mod 256)))
            <$> seq 0 n,
          set_sNum ((sNum s + Z.of_nat n) mod 256) s).
Proof.
  revert s. induction n as [|n IH]; intros s Hl Hr Hs.
  - cbn [replicate run seq fmap list_fmap].
    rewrite !Z.add_0_r, !Z.mod_small by lia. now destruct s.
  - destruct (lookup_lt_is_Some_2 (keyMap s) (Z.to_nat (rNum s))) as [v Hv]; [lia|].
    destruct (lookup_lt_is_Some_2 (keyMap s) (Z.to_nat (sNum s))) as [w Hw]; [lia|].
    pose proof (byte_range (rNum s + 1)) as Hr'.
    pose proof (byte_range (sNum s + 1)) as Hs'.
    cbn [replicate run perform].
    rewrite (RKey_read true s v Hv), (SKey_read true s w Hw), !bind_Done by lia.
    cbv beta iota.
    destruct (IH (set_rNum (byte (rNum s + 1)) s) Hl Hr' Hs) as [-> _].
    destruct (IH (set_sNum (byte (sNum s + 1)) s) Hl Hr Hs') as [_ ->].
    rewrite !bind_Done. cbv beta iota.
    cbn [keyMap rNum sNum set_rNum set_sNum].
    rewrite !(keystream_shift _ _ _ n) by done.
    rewrite !byte_add_succ. now destruct s.
Qed.

Lemma keystream_closed_form_witness :
  let s := mkSecurityKey SecurityKeyAccepted [] 0 (seqZ 0 256) 3 250 in
  length (keyMap s) = 256%nat /\ 0 <= rNum s < 256 /\ 0 <= sNum s < 256 /\
  run (replicate 10 (CallRKey true)) s
  = Done (ByteValue <$> [250; 251; 252; 253; 254; 255; 0; 1; 2; 3], set_rNum 4 s).
Proof.
  cbv zeta.
  split; [reflexivity|]. split; [cbn; lia|]. split; [cbn; lia|].
  refine (eq_trans (proj1 (keystream_closed_form 10
            (mkSecurityKey SecurityKeyAccepted [] 0 (seqZ 0 256) 3 250)
            eq_refl _ _)) _); [cbn; lia | cbn; lia | reflexivity].
Defined.

Lemma index_not_Spin (l : list Z) (i : Z) : index l i <> Spin.
Proof.
  unfold index. destruct (decide (0 <= i)); [|discriminate].
  destruct (l !! Z.to_nat i); discriminate.
Qed.

(** The two directions do not disturb each other: a call of [RKey]
    followed by a call of [SKey] returns the same two bytes and leaves
    the same state as the two calls in the other order, and both orders
    panic together. *)
Theorem RKey_SKey_commute (b1 b2 : bool) (s : SecurityKey) :
  ('(v, s1) ← RKey b1 s; '(w, s2) ← SKey b2 s1; Done (v, w, s2))
  = ('(w, s1) ← SKey b2 s; '(v, s2) ← RKey b1 s1; Done (v, w, s2)).
Proof.
  destruct s as [st pk k km sn rn]. unfold RKey, SKey.
  cbn [keyMap rNum sNum set_rNum set_sNum State proposedKey securityKey].
  destruct (decide (len km = 0)) as [E|E].
  - rewrite !bind_Done. cbn [keyMap]. now rewrite !decide_True by done.
  - cbv zeta.
    assert (forall (b : bool) (x y : SecurityKey),
              keyMap x = km -> keyMap y = km -> keyMap (if b then x else y) = km)
      as Hif by (intros [] ? ? ? ?; done).
    rewrite !Hif by reflexivity.
    destruct (index km rn) as [v| |] eqn:Er, (index km sn) as [w| |] eqn:Es;
      try (exfalso; eapply index_not_Spin; eassumption);
      destruct b1, b2;
      repeat (rewrite ?bind_Done; cbv beta iota zeta;
              cbn [keyMap rNum sNum set_rNum set_sNum State proposedKey securityKey];
              rewrite ?decide_False by done; rewrite ?Er, ?Es);
      reflexivity.
Qed.

Lemma perform_State (c : call) (s s' : SecurityKey) (r : reply) :
  perform c s = Done (r, s') ->
  State s' = match c with
             | CallGenerateProposal _ => SecurityKeyProposed
             | CallAcceptProposal => SecurityKeyAccepted
             | _ => State s
             end.
Proof.
  destruct c as [rnd| |packet|b|b]; cbn [perform]; intros H.
  - rewrite GenerateProposal_Done, bind_Done in H. apply Done_inj in H.
    now injection H as _ <-.
  - unfold AcceptProposal in H.
    destruct (Update_ok ([0; 0; 0; 0] ++ proposedKey s) s) as (s1 & E & _).
    rewrite E, !bind_Done in H. apply Done_inj in H. now injection H as _ <-.
  - destruct (Update_ok packet s) as (s1 & E & _ & HS & _).
    rewrite E, bind_Done in H. apply Done_inj in H. injection H as _ <-. exact HS.
  - unfold RKey in H. destruct (decide (len (keyMap s) = 0)).
    + rewrite bind_Done in H. apply Done_inj in H. now injection H as _ <-.
    + cbv zeta in H.
      destruct (index (keyMap (if b then set_rNum (byte (rNum s + 1)) s else s)) (rNum s));
        try discriminate H.
      rewrite !bind_Done in H. apply Done_inj in H. injection H as _ <-.
      now destruct b.
  - unfold SKey in H. destruct (decide (len (keyMap s) = 0)).
    + rewrite bind_Done in H. apply Done_inj in H. now injection H as _ <-.
    + cbv zeta in H.
      destruct (index (keyMap (if b then set_sNum (byte (sNum s + 1)) s else s)) (sNum s));
        try discriminate H.
      rewrite !bind_Done in H. apply Done_inj in H. injection H as _ <-.
      now destruct b.
Qed.

(** [State] is assigned by [GenerateProposal] and [AcceptProposal] only,
    and never to [SecurityEmpty]: after a sequence of calls the state is
    [SecurityEmpty] exactly when it was before and the sequence holds
    neither of these two calls.  A later [GenerateProposal] takes an
    accepted key back to [SecurityKeyProposed]. *)
Theorem State_Empty_iff (cs : list call) : forall (s s' : SecurityKey) (rs : list reply),
  run cs s = Done (rs, s') ->
  (State s' = SecurityEmpty <->
   State s = SecurityEmpty /\ Forall (fun c => assigns_State c = false) cs) /\
  (forall rnd cs', cs = cs' ++ [CallGenerateProposal rnd] ->
     State s' = SecurityKeyProposed).
Proof.
  induction cs as [|c cs IH]; intros s s' rs Hrun.
  - apply Done_inj in Hrun. injection Hrun as _ <-. split.
    + split; [intros; split; [done | constructor] | tauto].
    + intros rnd [|? ?] E; discriminate E.
  - cbn [run] in Hrun.
    destruct (perform c s) as [[r s1]| |] eqn:Hp; try discriminate Hrun.
    rewrite bind_Done in Hrun. cbv beta iota in Hrun.
    destruct (run cs s1) as [[rs1 s2]| |] eqn:Hr; try discriminate Hrun.
    rewrite bind_Done in Hrun. apply Done_inj in Hrun. injection Hrun as _ <-.
    destruct (IH s1 s2 rs1 Hr) as [Hiff Hlast].
    pose proof (perform_State c s s1 r Hp) as HS.
    split.
    + rewrite Hiff, Forall_cons. destruct c; cbn [assigns_State] in *;
        rewrite HS; split; intros [H1 H2]; try tauto; try discriminate H1;
        destruct H2; try discriminate; tauto.
    + intros rnd cs' E. destruct cs' as [|c' cs'].
      * injection E as -> ->. apply Done_inj in Hr. injection Hr as _ <-. exact HS.
      * injection E as -> ->. now apply (Hlast rnd cs').
Qed.

Lemma State_Empty_iff_witness :
  exists rs s',
    run [CallGenerateProposal (fun _ => 8); CallAcceptProposal;
         CallRKey true; CallGenerateProposal (fun _ => 0)] zeroSecurityKey
    = Done (rs, s') /\
    State s' = SecurityKeyProposed.
Proof.
  destruct (run_ok [CallGenerateProposal (fun _ => 8); CallAcceptProposal;
                    CallRKey true; CallGenerateProposal (fun _ => 0)]
              zeroSecurityKey)
    as (rs & s' & Hrun & _);
    [unfold key_ok; simpl; split; [left; reflexivity | lia]|].
  exists rs, s'. split; [exact Hrun|].
  exact (proj2 (State_Empty_iff _ _ _ _ Hrun) (fun _ => 0)
           [CallGenerateProposal (fun _ => 8); CallAcceptProposal; CallRKey true]
           eq_refl).
Defined.
